(** * dod_spending.py: a shallow embedding and its checked properties

    The development follows the layout of [src/dod_spending.py]:

    - [Str]              the Python [str] methods the program calls;
    - [Url]              the pieces of [urllib.parse] the program calls;
    - [RateLimiter]      class [RateLimiter] (sliding one-second windows);
    - [PDFSearcher]      class [PDFSearcher] (visited cache, probe, scrape);
    - [FileHandler]      class [FileHandler] (the CSV rows);
    - [SearchApplication] class [SearchApplication] (query parsing, the run).

    A Python [str] is the byte string of its UTF-8 encoding ([string] of
    [ascii]); the finite Python [float] clock readings, rates and delays are
    rationals ([Q]); a Python [set] of
    strings is a [gset string]; a [dict] iterated in insertion order is an
    association list. *)

From Stdlib Require Import Ascii QArith Qround Lqa.
From stdpp Require Import gmap strings list sorting.

(** ** Python string methods *)
Module Str.

(** [s.endswith(suffix)] *)
Definition endswith (s suffix : string) : bool :=
  let n := String.length s in
  let m := String.length suffix in
  if (m <=? n)%nat then String.eqb (String.substring (n - m) m s) suffix else false.

(** [s.startswith(p)] *)
Definition startswith (s p : string) : bool := String.prefix p s.

(** [sub in s] *)
Fixpoint contains (sub s : string) : bool :=
  String.prefix sub s ||
  match s with
  | EmptyString => false
  | String _ s' => contains sub s'
  end.

(** [s.find(c)] for a one-character [c]: index of the first occurrence. *)
Fixpoint find (c : ascii) (s : string) : option nat :=
  match s with
  | EmptyString => None
  | String a s' => if Ascii.eqb a c then Some 0%nat else S <$> find c s'
  end.

(** [c in s] for a one-character [c] *)
Definition has (c : ascii) (s : string) : bool :=
  match find c s with Some _ => true | None => false end.

(** [s.partition(c)]: the text before the first [c] and the text after it,
    or [None] when [c] does not occur. *)
Fixpoint cut (c : ascii) (s : string) : option (string * string) :=
  match s with
  | EmptyString => None
  | String a s' =>
      if Ascii.eqb a c then Some (EmptyString, s')
      else match cut c s' with
           | Some (l, r) => Some (String a l, r)
           | None => None
           end
  end.

(** [s.split(c, 1)] *)
Definition split1 (c : ascii) (s : string) : list string :=
  match cut c s with
  | Some (l, r) => [l; r]
  | None => [s]
  end.

(** [s.split(c)] *)
Fixpoint split (c : ascii) (s : string) : list string :=
  match s with
  | EmptyString => [EmptyString]
  | String a s' =>
      if Ascii.eqb a c then EmptyString :: split c s'
      else match split c s' with
           | w :: ws => String a w :: ws
           | [] => [String a EmptyString]
           end
  end.

(** [sep.join(l)] *)
Definition join (sep : string) (l : list string) : string := String.concat sep l.

(** [c.isspace()] for a character of one byte: U+0009 to U+000D, U+001C to
    U+001F and the space. *)
Definition isspace (c : ascii) : bool :=
  let n := nat_of_ascii c in
  ((9 <=? n) && (n <=? 13) || (28 <=? n) && (n <=? 32))%nat.

(** [c.isspace()] for a character of two bytes [a b]: U+0085 (C2 85) and the
    no-break space U+00A0 (C2 A0). *)
Definition isspace2 (a b : ascii) : bool :=
  let a := nat_of_ascii a in
  let b := nat_of_ascii b in
  ((a =? 194) && ((b =? 133) || (b =? 160)))%nat.

(** [c.isspace()] for a character of three bytes [a b c]: U+1680 (E1 9A 80),
    U+2000 to U+200A (E2 80 80 to E2 80 8A), U+2028, U+2029 and U+202F
    (E2 80 A8, A9, AF), U+205F (E2 81 9F) and U+3000 (E3 80 80).  No character
    of four bytes is white space. *)
Definition isspace3 (a b c : ascii) : bool :=
  let a := nat_of_ascii a in
  let b := nat_of_ascii b in
  let c := nat_of_ascii c in
  ((a =? 225) && (b =? 154) && (c =? 128)
   || (a =? 226) && (b =? 128)
      && ((128 <=? c) && (c <=? 138) || (c =? 168) || (c =? 169) || (c =? 175))
   || (a =? 226) && (b =? 129) && (c =? 159)
   || (a =? 227) && (b =? 128) && (c =? 128))%nat.

(** [s.lstrip()]: the white-space characters at the front are dropped,
    whatever their width. *)
Fixpoint lstrip (s : string) : string :=
  match s with
  | EmptyString => EmptyString
  | String a s1 =>
      if isspace a then lstrip s1
      else
        match s1 with
        | EmptyString => s
        | String b s2 =>
            if isspace2 a b then lstrip s2
            else
              match s2 with
              | EmptyString => s
              | String c s3 => if isspace3 a b c then lstrip s3 else s
              end
        end
  end.

(** The same on the reversed text, where the bytes of a character come
    last byte first. *)
Fixpoint lstrip_rev (s : string) : string :=
  match s with
  | EmptyString => EmptyString
  | String a s1 =>
      if isspace a then lstrip_rev s1
      else
        match s1 with
        | EmptyString => s
        | String b s2 =>
            if isspace2 b a then lstrip_rev s2
            else
              match s2 with
              | EmptyString => s
              | String c s3 => if isspace3 c b a then lstrip_rev s3 else s
              end
        end
  end.

(** [s.rstrip()] *)
Definition rstrip (s : string) : string :=
  String.rev (lstrip_rev (String.rev s)).

(** [s.strip()] *)
Definition strip (s : string) : string := rstrip (lstrip s).

Definition lower_ascii (c : ascii) : ascii :=
  let n := nat_of_ascii c in
  if ((65 <=? n) && (n <=? 90))%nat then ascii_of_nat (n + 32) else c.

(** [s.lower()] on the ASCII range. *)
Fixpoint lower (s : string) : string :=
  match s with
  | EmptyString => EmptyString
  | String a s' => String (lower_ascii a) (lower s')
  end.

(** [s[i:]] *)
Fixpoint drop (i : nat) (s : string) : string :=
  match i, s with
  | O, _ => s
  | S i', String _ s' => drop i' s'
  | S _, EmptyString => EmptyString
  end.

(** [s[:i]] *)
Fixpoint take (i : nat) (s : string) : string :=
  match i, s with
  | S i', String a s' => String a (take i' s')
  | _, _ => EmptyString
  end.

(** [all(p(c) for c in s)] *)
Fixpoint forallb (p : ascii → bool) (s : string) : bool :=
  match s with
  | EmptyString => true
  | String a s' => p a && forallb p s'
  end.

(** [s.rfind(c)] *)
Fixpoint rfind (c : ascii) (s : string) : option nat :=
  match s with
  | EmptyString => None
  | String a s' =>
      match rfind c s' with
      | Some i => Some (S i)
      | None => if Ascii.eqb a c then Some 0%nat else None
      end
  end.

End Str.

(** ** The pieces of [urllib.parse] that the program calls

    [urlparse] and [urljoin] belong to the Python standard library, not to the
    program.  The general results below take them as parameters; this module
    is a concrete model of their generic-syntax algorithm
    (scheme://netloc/path;params?query#fragment), used where a statement is
    evaluated on concrete addresses.  [None] stands for the [ValueError] that
    [urlsplit] raises on an unbalanced bracket in the network location. *)
Module Url.

Record ParseResult := mkParse {
  scheme : string; netloc : string; path : string;
  params : string; query : string; fragment : string }.

Definition uses_relative : list string :=
  [""; "ftp"; "http"; "gopher"; "nntp"; "imap"; "wais"; "file"; "https";
   "shttp"; "mms"; "prospero"; "rtsp"; "rtspu"; "sftp"; "svn"; "svn+ssh";
   "ws"; "wss"].

Definition uses_netloc : list string :=
  [""; "ftp"; "http"; "gopher"; "nntp"; "telnet"; "imap"; "wais"; "file";
   "mms"; "https"; "shttp"; "snews"; "prospero"; "rtsp"; "rtspu"; "rsync";
   "svn"; "svn+ssh"; "sftp"; "nfs"; "git"; "git+ssh"; "ws"; "wss"].

Definition uses_params : list string :=
  [""; "ftp"; "hdl"; "prospero"; "http"; "imap"; "https"; "shttp"; "rtsp";
   "rtspu"; "sip"; "sips"; "mms"; "sftp"; "tel"].

Definition mem (s : string) (l : list string) : bool :=
  existsb (String.eqb s) l.

Definition nonempty (s : string) : bool := negb (String.eqb s "").

Definition isalpha (c : ascii) : bool :=
  let n := nat_of_ascii c in
  ((65 <=? n) && (n <=? 90) || (97 <=? n) && (n <=? 122))%nat.

Definition isdigit (c : ascii) : bool :=
  let n := nat_of_ascii c in ((48 <=? n) && (n <=? 57))%nat.

Definition scheme_char (c : ascii) : bool :=
  isalpha c || isdigit c ||
  Ascii.eqb c "+" || Ascii.eqb c "-" || Ascii.eqb c ".".

(** [url.lstrip(_WHATWG_C0_CONTROL_OR_SPACE)] *)
Fixpoint lstrip_c0 (s : string) : string :=
  match s with
  | String a s' => if (nat_of_ascii a <=? 32)%nat then lstrip_c0 s' else s
  | EmptyString => EmptyString
  end.

(** removal of [_UNSAFE_URL_BYTES_TO_REMOVE] (tab, CR, LF) *)
Fixpoint remove_unsafe (s : string) : string :=
  match s with
  | EmptyString => EmptyString
  | String a s' =>
      let n := nat_of_ascii a in
      if ((n =? 9) || (n =? 10) || (n =? 13))%nat then remove_unsafe s'
      else String a (remove_unsafe s')
  end.

(** the scheme detection of [urlsplit] *)
Definition split_scheme (url default : string) : string * string :=
  match Str.find ":" url, url with
  | Some (S i), String a _ =>
      if isalpha a && Str.forallb scheme_char (Str.take (S i) url)
      then (Str.lower (Str.take (S i) url), Str.drop (S (S i)) url)
      else (default, url)
  | _, _ => (default, url)
  end.

(** [_splitnetloc(url, 2)] applied to the text after the two slashes *)
Fixpoint splitnetloc (s : string) : string * string :=
  match s with
  | EmptyString => (EmptyString, EmptyString)
  | String a s' =>
      if Ascii.eqb a "/" || Ascii.eqb a "?" || Ascii.eqb a "#"
      then (EmptyString, s)
      else let '(n, r) := splitnetloc s' in (String a n, r)
  end.

(** [urlsplit(url, scheme)] as (scheme, netloc, path, query, fragment) *)
Definition urlsplit (url default : string)
  : option (string * string * string * string * string) :=
  let url := remove_unsafe (lstrip_c0 url) in
  let '(sch, url) := split_scheme url default in
  let '(net, url) :=
    if Str.startswith url "//" then splitnetloc (Str.drop 2 url)
    else (EmptyString, url) in
  if xorb (Str.has "[" net) (Str.has "]" net) then None
  else
    let '(url, frag) :=
      match Str.cut "#" url with Some p => p | None => (url, EmptyString) end in
    let '(url, qry) :=
      match Str.cut "?" url with Some p => p | None => (url, EmptyString) end in
    Some (sch, net, url, qry, frag).

Definition splitparams (url : string) : string * string :=
  match Str.rfind "/" url with
  | Some j =>
      match Str.find ";" (Str.drop j url) with
      | Some i => (Str.take (j + i) url, Str.drop (S (j + i)) url)
      | None => (url, EmptyString)
      end
  | None =>
      match Str.find ";" url with
      | Some i => (Str.take i url, Str.drop (S i) url)
      | None => (url, EmptyString)
      end
  end.

(** [urlparse(url, scheme)] *)
Definition urlparse (url default : string) : option ParseResult :=
  match urlsplit url default with
  | None => None
  | Some (sch, net, p, qry, frag) =>
      let '(p, prm) :=
        if mem sch uses_params && Str.has ";" p then splitparams p
        else (p, EmptyString) in
      Some (mkParse sch net p prm qry frag)
  end.

Definition urlunsplit (sch net url qry frag : string) : string :=
  let url :=
    if nonempty net ||
       (nonempty sch && mem sch uses_netloc && negb (Str.startswith url "//"))
    then "//" +:+ net +:+
         (if nonempty url && negb (Str.startswith url "/") then "/" +:+ url else url)
    else url in
  let url := if nonempty sch then sch +:+ ":" +:+ url else url in
  let url := if nonempty qry then url +:+ "?" +:+ qry else url in
  if nonempty frag then url +:+ "#" +:+ frag else url.

Definition urlunparse (r : ParseResult) : string :=
  let url := if nonempty (params r) then path r +:+ ";" +:+ params r else path r in
  urlunsplit (scheme r) (netloc r) url (query r) (fragment r).

(** [segments[1:-1] = filter(None, segments[1:-1])] *)
Definition drop_empty_middle (segments : list string) : list string :=
  match segments with
  | first :: rest =>
      match List.rev rest with
      | last :: mid => (first :: List.filter nonempty (List.rev mid) ++ [last])%list
      | [] => segments
      end
  | [] => []
  end.

(** the loop of [urljoin] over the segments; [acc] is [resolved_path]
    in reverse *)
Fixpoint resolve (segments acc : list string) : list string :=
  match segments with
  | [] => List.rev acc
  | seg :: segments' =>
      if String.eqb seg ".." then resolve segments' (List.tl acc)
      else if String.eqb seg "." then resolve segments' acc
      else resolve segments' (seg :: acc)
  end.

Definition last_is_dot (segments : list string) : bool :=
  match List.rev segments with
  | s :: _ => String.eqb s "." || String.eqb s ".."
  | [] => false
  end.

(** [urljoin(base, url)] *)
Definition urljoin (base url : string) : option string :=
  if String.eqb base "" then Some url
  else if String.eqb url "" then Some base
  else
    match urlparse base "" with
    | None => None
    | Some b =>
        match urlparse url (scheme b) with
        | None => None
        | Some u =>
            if negb (String.eqb (scheme u) (scheme b))
               || negb (mem (scheme u) uses_relative)
            then Some url
            else if mem (scheme u) uses_netloc && nonempty (netloc u)
            then Some (urlunparse u)
            else
              let net := if mem (scheme u) uses_netloc then netloc b else netloc u in
              if negb (nonempty (path u)) && negb (nonempty (params u))
              then Some (urlunparse
                   (mkParse (scheme u) net (path b) (params b)
                      (if nonempty (query u) then query u else query b)
                      (fragment u)))
              else
                let base_parts := Str.split "/" (path b) in
                let base_parts :=
                  match List.rev base_parts with
                  | last :: front =>
                      if nonempty last then List.rev front else base_parts
                  | [] => base_parts
                  end in
                let segments :=
                  if Str.startswith (path u) "/" then Str.split "/" (path u)
                  else drop_empty_middle (base_parts ++ Str.split "/" (path u))%list in
                let resolved := resolve segments [] in
                let resolved :=
                  if last_is_dot segments then (resolved ++ [EmptyString])%list
                  else resolved in
                let joined := Str.join "/" resolved in
                Some (urlunparse
                   (mkParse (scheme u) net
                      (if nonempty joined then joined else "/")
                      (params u) (query u) (fragment u)))
        end
    end.

(** [urlparse(url).netloc] and [urlparse(url).path] *)
Definition netloc_of (url : string) : option string := netloc <$> urlparse url "".
Definition path_of (url : string) : option string := path <$> urlparse url "".

End Url.

(** ** [Config] (the dataclass, with its defaults; the rates and the delay
    are finite floats) *)
Record Config := mkConfig {
  timeout : Z;
  max_retries : Z;
  search_results_limit : nat;
  max_workers : nat;
  requests_per_second : Q;
  domain_rate_limit : Q;
  min_request_delay : Q }.

Definition default_config : Config :=
  {| timeout := 10; max_retries := 3; search_results_limit := 20;
     max_workers := 8; requests_per_second := 2; domain_rate_limit := 1;
     min_request_delay := 1 # 4 |}.

(** Exceptions that the modelled code can raise. *)
Inductive exn :=
  IndexError | ValueError | OverflowError | RequestException | OtherException.

Inductive outcome := Returned | Raised (e : exn).

(** ** class [RateLimiter]

    The clock is explicit.  A call of [wait] reads [current_time] (line 47)
    before it takes the lock; [now] is the clock reading at the moment the
    lock is acquired, so [current_time <= now], with equality when nobody
    holds the lock.  A [time.sleep(d)] that returns advances the clock by
    [d]; the other statements take no time.  The result carries the limiter
    state and the clock reading at the moment the lock is released.

    [time.sleep] belongs to the Python standard library.  It refuses a
    length that does not fit its C timestamp (a 64-bit count of nanoseconds:
    [OverflowError] from about 9.2e9 seconds on) and a negative length
    ([ValueError]).  Where the first refusal starts depends on the
    interpreter, so the limiter takes it as a parameter, [sleep_error];
    module [PyTime] gives a concrete one for the runs that are evaluated. *)
Module RateLimiter.
Local Open Scope Q_scope.

Definition Qlt_b (x y : Q) : bool := negb (Qle_bool y x).

(** The two windows of the limiter, and a ghost log of every admission it
    has recorded (host and clock reading of lines 63-64), which the code
    itself forgets when it prunes. *)
Record state := mkState {
  global_timestamps : list Q;
  domain_timestamps : gmap string (list Q);
  admitted : list (string * Q) }.

(** [RateLimiter.__init__] *)
Definition init : state := mkState [] ∅ [].

(** [self.domain_timestamps[domain]] on the [defaultdict(list)] *)
Definition domain_get (st : state) (domain : string) : list Q :=
  default [] (domain_timestamps st !! domain).

(** [[t for t in ts if current_time - t < 1.0]] *)
Definition prune (current_time : Q) (ts : list Q) : list Q :=
  List.filter (fun t => Qlt_b (current_time - t) 1) ts.

(** [int(x)] of a float: truncation towards zero *)
Definition int (x : Q) : Z := Z.quot (Qnum x) (Zpos (Qden x)).

Section Wait.
(** [urlparse(url).netloc]; [None] when [urlparse] raises [ValueError] *)
Variable netloc_of : string → option string.
(** The exception with which [time.sleep(d)] refuses a length [d] that it
    cannot represent; [None] for a length that it can. *)
Variable sleep_error : Q → option exn.

(** [time.sleep(d)]: the length is converted first, which may fail; a
    negative length is a [ValueError]; otherwise the caller sleeps [d]. *)
Definition sleep (d : Q) (now : Q) : Q + exn :=
  match sleep_error d with
  | Some e => inr e
  | None => if Qlt_b d 0 then inr ValueError else inl (now + d)
  end.

(** One throttling block (lines 53-56 and 58-61): with the window at or
    above the ceiling, sleep until its first entry is one second older
    than [current_time].  [ts[0]] on an empty window is an [IndexError]. *)
Definition throttle (ceiling : Q) (current_time : Q) (ts : list Q) (now : Q)
  : Q + exn :=
  if (int ceiling <=? Z.of_nat (length ts))%Z then
    match ts with
    | [] => inr IndexError
    | t0 :: _ =>
        let sleep_time := 1 - (current_time - t0) in
        if Qlt_b 0 sleep_time then sleep sleep_time now else inl now
    end
  else inl now.

(** [RateLimiter.wait] *)
Definition wait (cfg : Config) (st : state) (url : string)
    (current_time now : Q) : state * Q * outcome :=
  match netloc_of url with
  | None => (st, now, Raised ValueError)
  | Some domain =>
      let g := prune current_time (global_timestamps st) in
      let d := prune current_time (domain_get st domain) in
      let st1 := mkState g (<[domain := d]> (domain_timestamps st)) (admitted st) in
      match throttle (requests_per_second cfg) current_time g now with
      | inr e => (st1, now, Raised e)
      | inl now1 =>
          match throttle (domain_rate_limit cfg) current_time d now1 with
          | inr e => (st1, now1, Raised e)
          | inl now2 =>
              let st2 :=
                mkState (g ++ [now2])%list
                  (<[domain := (d ++ [now2])%list]> (domain_timestamps st1))
                  (admitted st ++ [(domain, now2)])%list in
              match sleep (min_request_delay cfg) now2 with
              | inr e => (st2, now2, Raised e)
              | inl now3 => (st2, now3, Returned)
              end
          end
      end
  end.

(** A schedule of calls: each worker reads the clock at [current_time]
    and then queues for the lock, which it gets once the previous holder
    has released it. *)
Fixpoint run_calls (cfg : Config) (st : state) (released : Q)
    (calls : list (string * Q)) : state * Q :=
  match calls with
  | [] => (st, released)
  | (url, current_time) :: calls' =>
      let now := if Qle_bool current_time released then released else current_time in
      let '(st', released', _) := wait cfg st url current_time now in
      run_calls cfg st' released' calls'
  end.

(** Calls made in turn: each worker reads the clock [idle >= 0] after the
    previous holder released the lock, and so gets the lock at once. *)
Fixpoint run_in_turn (cfg : Config) (st : state) (released : Q)
    (calls : list (string * Q)) : state * Q :=
  match calls with
  | [] => (st, released)
  | (url, idle) :: calls' =>
      let current_time := released + idle in
      let '(st', released', _) := wait cfg st url current_time current_time in
      run_in_turn cfg st' released' calls'
  end.
End Wait.

(** [s] lies in the one-second interval that ends at [t] (the window test
    of the code: [t - s < 1.0]). *)
Definition in_window (t s : Q) : bool := Qle_bool s t && Qlt_b (t - s) 1.

(** Number of admissions among [ts] in the one-second interval that ends
    at [t]. *)
Definition admitted_within (t : Q) (ts : list Q) : nat :=
  length (List.filter (in_window t) ts).

(** All admissions of the global partition, and those of one host. *)
Definition global_admitted (st : state) : list Q := (admitted st).*2.

Definition domain_admitted (host : string) (st : state) : list Q :=
  (List.filter (fun p => String.eqb p.1 host) (admitted st)).*2.

(** What one partition keeps true as long as every caller reads the clock
    after the previous holder of the lock has released it.  [H] is every
    admission of the partition, [G] its window in the limiter state, [c] its
    ceiling: no second holds more than [c] admissions, nothing is stamped
    after [clock], and from [clock] on the window accounts for every
    admission that still counts. *)
Definition window_inv (c : Z) (H G : list Q) (clock : Q) : Prop :=
  (∀ t, (Z.of_nat (admitted_within t H) ≤ c)%Z)
  ∧ Forall (λ h, h <= clock) H
  ∧ Forall (λ h, h <= clock) G
  ∧ (∀ t, clock <= t → (admitted_within t H ≤ admitted_within t G)%nat)
  ∧ (∀ t, (Z.of_nat (admitted_within t G) ≤ c)%Z).

Definition limiter_inv (cfg : Config) (st : state) (clock : Q) : Prop :=
  window_inv (int (requests_per_second cfg)) (global_admitted st)
    (global_timestamps st) clock
  ∧ ∀ host, window_inv (int (domain_rate_limit cfg)) (domain_admitted host st)
              (domain_get st host) clock.

(** What the lock and the closing sleep keep true under any schedule: the
    admissions are in order, [d] apart, and the lock is not released before
    [d] has passed since the last one. *)
Definition spaced_inv (d : Q) (st : state) (released : Q) : Prop :=
  StronglySorted (λ a b, a + d <= b) (global_admitted st)
  ∧ Forall (λ h, h + d <= released) (global_admitted st).

End RateLimiter.

(** ** [time.sleep] of CPython

    A concrete [sleep_error] for the runs evaluated below: the length in
    nanoseconds must fit a signed 64-bit integer.  (At the very edge of that
    range the interpreter rounds the product to a double first; the lengths
    used below are far from it.) *)
Module PyTime.
Local Open Scope Q_scope.

Definition sleep_error (d : Q) : option exn :=
  let ns := d * inject_Z (10 ^ 9) in
  if Qle_bool (inject_Z (2 ^ 63)) ns || RateLimiter.Qlt_b ns (inject_Z (- 2 ^ 63))
  then Some OverflowError
  else None.

End PyTime.

(** ** class [PDFSearcher]

    The network and the HTML parser are collaborators: [http_head] is the
    result of [session.head(url, ...)], [http_get] the result of
    [session.get(url, ...)] followed by the parse, given as the status code
    and the [href] values of the [a] elements in document order.  The worker
    pools run their tasks in some order; the model runs them in list order,
    one after the other (each task's effects on the shared sets sit under the
    lock in the source).  The trace is a ghost record of the requests issued:
    [Probe] for the HEAD of [_check_direct_pdf], [Scrape] for the GET of
    [_scrape_page_for_pdfs], both tagged with the expansion depth of the call
    (1 for a search result, 2 for a link taken from a page), and [Search] for
    the call of the search collaborator. *)
Module PDFSearcher.

Record Response := mkResponse {
  status_code : Z;
  headers : list (string * string) }.

(** [response.headers.get(key, default)] on the case-insensitive dict *)
Definition headers_get (h : list (string * string)) (key default : string) : string :=
  match List.find (fun kv => String.eqb (Str.lower kv.1) (Str.lower key)) h with
  | Some kv => kv.2
  | None => default
  end.

Inductive head_result :=
| HeadResponse (r : Response)
| HeadRaises (e : exn).

Inductive get_result :=
| GetResponse (status : Z) (hrefs : list string)
| GetRaises (e : exn).

Inductive event :=
| Search (query : string)
| Probe (depth : nat) (url : string)
| Scrape (depth : nat) (url : string).

Global Instance event_eq_dec : EqDecision event.
Proof. solve_decision. Defined.

(** The searcher object: the visited cache (shared by all queries of a
    run) and the ghost trace. *)
Record state := mkState {
  cache : gset string;
  trace : list event }.

(** [PDFSearcher.__init__] *)
Definition init : state := mkState ∅ [].

Definition log (e : event) (st : state) : state :=
  mkState (cache st) (trace st ++ [e]).

Section Crawl.
(** [urlparse(url).netloc] and [urljoin]; [None] is a [ValueError] *)
Variable netloc_of : string → option string.
Variable urljoin : string → string → option string.
Variable http_head : string → head_result.
Variable http_get : string → get_result.
(** [list(search(query, num_results=n, pause=2.0))]; [None] when the
    search collaborator raises *)
Variable search : string → nat → option (list string).

(** [self.rate_limiter.wait(url)] of the limiter that the program builds,
    the one of [Config()]: the call only delays the caller, unless [urlparse]
    rejects the address (see [RateLimiter.wait] and [wait_default_config]
    below; with a ceiling below one, or a delay that [time.sleep] refuses,
    the call would raise). *)
Definition rate_limiter_wait (url : string) : outcome :=
  match netloc_of url with
  | Some _ => Returned
  | None => Raised ValueError
  end.

(** [PDFSearcher._check_direct_pdf] *)
Definition _check_direct_pdf (depth : nat) (url : string)
    (st : state) (pdf_links : gset string) : state * gset string * outcome :=
  match rate_limiter_wait url with
  | Raised e => (st, pdf_links, Raised e)
  | Returned =>
      let st := log (Probe depth url) st in
      match http_head url with
      | HeadResponse response =>
          let content_type := headers_get (headers response) "Content-Type" "" in
          if (status_code response =? 200)%Z
             && Str.contains "application/pdf" content_type
          then (st, {[url]} ∪ pdf_links, Returned)
          else (st, pdf_links, Returned)
      | HeadRaises RequestException => (st, pdf_links, Returned)
      | HeadRaises e => (st, pdf_links, Raised e)
      end
  end.

(** The set comprehension of lines 144-145:
    [{urljoin(url, link["href"]) for link in ... if link["href"].endswith(".pdf")}] *)
Fixpoint pdf_urls_of (url : string) (hrefs : list string) (acc : gset string)
  : option (gset string) :=
  match hrefs with
  | [] => Some acc
  | href :: hrefs' =>
      if Str.endswith href ".pdf" then
        match urljoin url href with
        | Some v => pdf_urls_of url hrefs' ({[v]} ∪ acc)
        | None => None
        end
      else pdf_urls_of url hrefs' acc
  end.

(** [executor.map(lambda pdf_url: self._check_direct_pdf(...), pdf_urls)]:
    every task runs; what a task raises is never retrieved. *)
Fixpoint check_all (depth : nat) (urls : list string)
    (st : state) (pdf_links : gset string) : state * gset string :=
  match urls with
  | [] => (st, pdf_links)
  | u :: urls' =>
      let '(st', pdf_links', _) := _check_direct_pdf depth u st pdf_links in
      check_all depth urls' st' pdf_links'
  end.

(** [response.raise_for_status()] *)
Definition raise_for_status (status : Z) : outcome :=
  if ((400 <=? status) && (status <? 600))%Z then Raised RequestException
  else Returned.

(** [PDFSearcher._scrape_page_for_pdfs] *)
Definition _scrape_page_for_pdfs (depth : nat) (url : string)
    (st : state) (pdf_links : gset string) : state * gset string * outcome :=
  match rate_limiter_wait url with
  | Raised e => (st, pdf_links, Raised e)
  | Returned =>
      let st := log (Scrape depth url) st in
      match http_get url with
      | GetRaises RequestException => (st, pdf_links, Returned)
      | GetRaises e => (st, pdf_links, Raised e)
      | GetResponse status hrefs =>
          match raise_for_status status with
          | Raised _ => (st, pdf_links, Returned)
          | Returned =>
              match pdf_urls_of url hrefs ∅ with
              | None => (st, pdf_links, Raised ValueError)
              | Some pdf_urls =>
                  let '(st', pdf_links') :=
                    check_all (S depth) (elements pdf_urls) st pdf_links in
                  (st', pdf_links', Returned)
              end
          end
      end
  end.

(** [PDFSearcher._process_url] *)
Definition _process_url (url : string)
    (st : state) (pdf_links : gset string) : state * gset string * outcome :=
  if decide (url ∈ cache st) then (st, pdf_links, Returned)
  else
    let st := mkState ({[url]} ∪ cache st) (trace st) in
    match rate_limiter_wait url with
    | Raised e => (st, pdf_links, Raised e)
    | Returned =>
        let '(st', pdf_links', _) :=
          if Str.endswith url ".pdf"
          then _check_direct_pdf 1 url st pdf_links
          else _scrape_page_for_pdfs 1 url st pdf_links in
        (st', pdf_links', Returned)
    end.

(** [executor.map(lambda url: self._process_url(...), search_results)] *)
Fixpoint process_all (urls : list string)
    (st : state) (pdf_links : gset string) : state * gset string :=
  match urls with
  | [] => (st, pdf_links)
  | u :: urls' =>
      let '(st', pdf_links', _) := _process_url u st pdf_links in
      process_all urls' st' pdf_links'
  end.

(** [PDFSearcher.find_pdf_links].  [cfg] supplies [search_results_limit];
    the worker pool and the limiter are those of [Config()], the only
    configuration that the program builds (a pool of zero workers could not
    be created, and the query would return the empty set). *)
Definition find_pdf_links (cfg : Config) (query : string) (st : state)
  : state * gset string :=
  let pdf_links : gset string := ∅ in
  let st := log (Search query) st in
  match search query (search_results_limit cfg) with
  | None => (st, pdf_links)
  | Some search_results => process_all search_results st pdf_links
  end.
End Crawl.

(** Number of requests (HEAD or GET) that a trace issues to [u]. *)
Definition is_request_to (u : string) (e : event) : bool :=
  match e with
  | Probe _ v | Scrape _ v => String.eqb u v
  | Search _ => false
  end.

Definition requests_to (u : string) (tr : list event) : nat :=
  length (List.filter (is_request_to u) tr).

(** Number of requests that a trace issues to [u] as a search result
    (depth 1). *)
Definition is_seed_request_to (u : string) (e : event) : bool :=
  match e with
  | Probe d v | Scrape d v => (d =? 1) && String.eqb u v
  | Search _ => false
  end.

Definition seed_requests_to (u : string) (tr : list event) : nat :=
  length (List.filter (is_seed_request_to u) tr).

Definition depth_of (e : event) : nat :=
  match e with
  | Probe d _ | Scrape d _ => d
  | Search _ => 0
  end.

(** The visited cache bounds the requests issued to search results: none to
    an address outside the cache, at most one to an address inside. *)
Definition cache_inv (st : state) : Prop :=
  ∀ u, seed_requests_to u (trace st) ≤ 1
       ∧ (u ∉ cache st → seed_requests_to u (trace st) = 0).

(** What processing the search result [u] can add to the trace: its own
    probe or its own scrape, or the probe of a link taken from its page. *)
Definition hop (u : string) (e : event) : Prop :=
  e = Probe 1 u ∨ e = Scrape 1 u ∨ ∃ v, e = Probe 2 v.

(** The test of line 129 on what the HEAD returned. *)
Definition head_is_pdf (r : head_result) : bool :=
  match r with
  | HeadResponse response =>
      (status_code response =? 200)%Z
      && Str.contains "application/pdf"
           (headers_get (headers response) "Content-Type" "")
  | HeadRaises _ => false
  end.

(** An address whose probe gets past the limiter and whose HEAD passes the
    test of line 129. *)
Definition verified (netloc_of : string → option string)
    (http_head : string → head_result) (url : string) : Prop :=
  rate_limiter_wait netloc_of url = Returned
  ∧ head_is_pdf (http_head url) = true.

(** The [href] values of a page whose scrape gets past the limiter and
    whose GET is answered without an error status; [None] otherwise. *)
Definition page_hrefs (netloc_of : string → option string)
    (http_get : string → get_result) (url : string) : option (list string) :=
  match rate_limiter_wait netloc_of url, http_get url with
  | Returned, GetResponse status hrefs =>
      match raise_for_status status with
      | Returned => Some hrefs
      | Raised _ => None
      end
  | _, _ => None
  end.

(** What the search result [u] contributes when it is processed: itself
    when it ends with [.pdf], else the [.pdf] links of its page, in both
    cases only addresses that are [verified]. *)
Definition yields (netloc_of : string → option string)
    (urljoin : string → string → option string)
    (http_head : string → head_result) (http_get : string → get_result)
    (u v : string) : Prop :=
  verified netloc_of http_head v
  ∧ (Str.endswith u ".pdf" = true ∧ v = u
     ∨ Str.endswith u ".pdf" = false
       ∧ ∃ hrefs pdf_urls,
           page_hrefs netloc_of http_get u = Some hrefs
           ∧ pdf_urls_of urljoin u hrefs ∅ = Some pdf_urls
           ∧ v ∈ pdf_urls).

End PDFSearcher.

(** A [dict] with string keys, in insertion order. *)
Module Dict.
Section Dict.
Context {V : Type}.

(** [d[k] = v]: an existing key keeps its position *)
Fixpoint set (k : string) (v : V) (d : list (string * V)) : list (string * V) :=
  match d with
  | [] => [(k, v)]
  | (k', v') :: d' =>
      if String.eqb k' k then (k', v) :: d' else (k', v') :: set k v d'
  end.

End Dict.
End Dict.

(** ** class [FileHandler]

    The rows are those handed to [csv.writer.writerow], in order, once the
    file is open. *)
Module FileHandler.

Inductive cell := Text (s : string) | Number (n : nat).
Definition row := list cell.

(** [sorted(links)] on a set of strings: ascending code-point order, which
    on UTF-8 text is the byte-wise lexicographic order [String.le] *)
Definition sorted (links : gset string) : list string :=
  merge_sort String.le (elements links).

Definition writerow (r : row) (w : list row) : list row := w ++ [r].

(** [for link in sorted(links): writer.writerow([title, link])] *)
Fixpoint write_links (title : string) (links : list string) (w : list row) : list row :=
  match links with
  | [] => w
  | link :: links' => write_links title links' (writerow [Text title; Text link] w)
  end.

(** [for title, links in search_results.items(): ...] with the running
    [total_pdfs] *)
Fixpoint write_queries (items : list (string * gset string))
    (w : list row) (total_pdfs : nat) : list row * nat :=
  match items with
  | [] => (w, total_pdfs)
  | (title, links) :: items' =>
      let w := write_links title (sorted links) w in
      let total_pdfs := total_pdfs + size links in
      let w := writerow [] w in
      write_queries items' w total_pdfs
  end.

(** [FileHandler.save_results]; [ctime] is [time.ctime()] *)
Definition save_results (ctime : string)
    (search_results : list (string * gset string)) : list row :=
  let w := writerow [Text "Search Performed On"; Text ctime] [] in
  let w := writerow [] w in
  let w := writerow [Text "Query"; Text "PDF Link"] w in
  let '(w, total_pdfs) := write_queries search_results w 0 in
  writerow [Text "Total PDFs Found"; Number total_pdfs] w.


End FileHandler.

(** ** class [SearchApplication] *)
Module SearchApplication.

Definition DEFAULT_QUERIES : list (string * string) :=
  [("FY 2024 DoD Budget",
    "DoD budget FY 2024 spending cur filetype:pdf site:*.gov -inurl:(signup | login)");
   ("FY 2025 DoD Budget",
    "DoD budget FY 2025 spending cur filetype:pdf site:*.gov -inurl:(signup | login)");
   ("FY 2024/2025 DoD Vendor Spending",
    "DoD vendor spending FY 2024 OR FY 2025 cur filetype:pdf site:*.gov -inurl:(signup | login)")].

(** The [argparse.Namespace]: [queries] is [None] without [-q] and
    [Some []] for [-q] without values. *)
Record Namespace := mkArgs {
  output : option string;
  verbose : bool;
  queries : option (list string) }.

(** [sys.exit(code)] after [logging.error(message)] *)
Record SystemExit := mkExit { code : Z; logged : string }.

Definition invalid_query (q : string) : SystemExit :=
  mkExit 1 ("Invalid query format: " +:+ q +:+ ". Expected 'Title:query'").

(** The loop of [_get_queries] *)
Fixpoint parse_queries (qs : list string) (queries : list (string * string))
  : list (string * string) + SystemExit :=
  match qs with
  | [] => inl queries
  | q :: qs' =>
      match Str.split1 ":" q with
      | [title; query] =>
          parse_queries qs' (Dict.set (Str.strip title) (Str.strip query) queries)
      | _ => inr (invalid_query q)
      end
  end.

(** [SearchApplication._get_queries] *)
Definition _get_queries (args : Namespace) : list (string * string) + SystemExit :=
  match queries args with
  | None | Some [] => inl DEFAULT_QUERIES
  | Some qs => parse_queries qs []
  end.

Inductive run_result :=
| Exited (e : SystemExit)
| Finished (filename : string) (rows : list FileHandler.row).

Section Run.
Variable netloc_of : string → option string.
Variable urljoin : string → string → option string.
Variable http_head : string → PDFSearcher.head_result.
Variable http_get : string → PDFSearcher.get_result.
Variable search : string → nat → option (list string).
(** [time.strftime("%Y%m%d_%H%M%S")] and [time.ctime()] *)
Variable timestamp ctime : string.

(** The loop of [_perform_searches]: one [find_pdf_links] per query, all
    on the one searcher.  The source hands the queries to a pool of threads;
    here they run one after the other, in the order of the map.  Which query
    a search result shared by two of them is credited to depends on that
    order; what the run as a whole enters into the cache and writes does
    not. *)
Fixpoint search_all (cfg : Config) (queries : list (string * string))
    (st : PDFSearcher.state) (search_results : list (string * gset string))
  : PDFSearcher.state * list (string * gset string) :=
  match queries with
  | [] => (st, search_results)
  | (title, query) :: queries' =>
      let '(st', pdf_links) :=
        PDFSearcher.find_pdf_links netloc_of urljoin http_head http_get search
          cfg query st in
      search_all cfg queries' st' (Dict.set title pdf_links search_results)
  end.

(** [SearchApplication._perform_searches] *)
Definition _perform_searches (cfg : Config) (args : Namespace)
    (st : PDFSearcher.state)
  : PDFSearcher.state * (list (string * gset string) + SystemExit) :=
  match _get_queries args with
  | inr e => (st, inr e)
  | inl queries =>
      let '(st', search_results) := search_all cfg queries st [] in
      (st', inl search_results)
  end.

(** [SearchApplication._save_results] *)
Definition _save_results (output : option string)
    (search_results : list (string * gset string)) : string * list FileHandler.row :=
  let filename :=
    match output with
    | Some o => if String.eqb o "" then "dod_spending_pdfs_" +:+ timestamp +:+ ".csv" else o
    | None => "dod_spending_pdfs_" +:+ timestamp +:+ ".csv"
    end in
  (filename, FileHandler.save_results ctime search_results).

(** [SearchApplication().run()] on parsed arguments: the trace of the
    requests issued and how the process ends *)
Definition run (args : Namespace) : list PDFSearcher.event * run_result :=
  let cfg := default_config in
  let searcher := PDFSearcher.init in
  match _perform_searches cfg args searcher with
  | (st, inr e) => (PDFSearcher.trace st, Exited e)
  | (st, inl search_results) =>
      let '(filename, rows) := _save_results (output args) search_results in
      (PDFSearcher.trace st, Finished filename rows)
  end.
End Run.

(** The queries a trace hands to the search collaborator, in order. *)
Definition searched (tr : list PDFSearcher.event) : list string :=
  omap (fun e => match e with PDFSearcher.Search q => Some q | _ => None end) tr.

End SearchApplication.

(** ** Concrete runs used below *)
Module Scenario.

(** Five calls of [RateLimiter.wait] (address, clock reading of line 47),
    in the order in which they get the lock: both waits of one worker on
    a.gov, then the first waits of three other workers, the last two of
    which read the clock while the lock was held. *)
Definition stale_clock_calls : list (string * Q) :=
  [("http://a.gov/p", 0); ("http://a.gov/p", 1 # 4); ("http://b.gov/p", 3 # 2);
   ("http://d.gov/p", 16 # 10); ("http://c.gov/p", 199 # 100)]%Q.

(** A site whose index page links to a report that is itself a search
    result. *)
Definition budget_pdf : string := "http://a.gov/reports/budget.pdf".
Definition index_page : string := "http://a.gov/index.html".

Definition site_get (url : string) : PDFSearcher.get_result :=
  if String.eqb url index_page
  then PDFSearcher.GetResponse 200 ["/reports/budget.pdf"]
  else PDFSearcher.GetRaises RequestException.

Definition site_head (url : string) : PDFSearcher.head_result :=
  if String.eqb url budget_pdf
  then PDFSearcher.HeadResponse
         (PDFSearcher.mkResponse 200 [("Content-Type", "application/pdf")])
  else PDFSearcher.HeadResponse (PDFSearcher.mkResponse 404 []).

Definition site_search (query : string) (num_results : nat) : option (list string) :=
  Some [budget_pdf; index_page].

(** A page with a download link (the document path carries a query
    string) and a viewer link (the query string names the document). *)
Definition docs_page : string := "http://a.gov/docs/index.html".
Definition docs_hrefs : list string := ["report.pdf?download=1"; "view?file=report.pdf"].
Definition download_link : string := "http://a.gov/docs/report.pdf?download=1".
Definition viewer_link : string := "http://a.gov/docs/view?file=report.pdf".

Definition docs_get (url : string) : PDFSearcher.get_result :=
  PDFSearcher.GetResponse 200 [].

Definition docs_head (url : string) : PDFSearcher.head_result :=
  PDFSearcher.HeadResponse
    (PDFSearcher.mkResponse 200 [("content-type", "application/pdf")]).

(** Two servers that answer every HEAD with status 200: one names the PDF
    media type in capitals, the other sends an HTML page whose Content-Type
    carries a parameter that spells the PDF media type. *)
Definition capitals_head (url : string) : PDFSearcher.head_result :=
  PDFSearcher.HeadResponse
    (PDFSearcher.mkResponse 200 [("Content-Type", "Application/PDF")]).

Definition html_head (url : string) : PDFSearcher.head_result :=
  PDFSearcher.HeadResponse
    (PDFSearcher.mkResponse 200
       [("Content-Type", "text/html; note=application/pdf")]).

(** The media type of a Content-Type value: the text before the first
    [;], in lower case (media types do not distinguish case). *)
Definition media_type (content_type : string) : string :=
  Str.lower (Str.strip (default content_type (fst <$> Str.cut ";" content_type))).

(** A limiter state in which the last admission on a.gov was stamped
    10^11 seconds after the caller of the next one read the clock. *)
Definition long_wait_state : RateLimiter.state :=
  RateLimiter.mkState [inject_Z (10 ^ 11)] {["a.gov" := [inject_Z (10 ^ 11)]]}
    [("a.gov", inject_Z (10 ^ 11))].

(** The no-break space U+00A0 and the ideographic space U+3000 as text
    (the bytes C2 A0 and E3 80 80), and two [-q] values whose titles differ
    by a trailing no-break space. *)
Definition nbsp : string :=
  String (ascii_of_nat 194) (String (ascii_of_nat 160) EmptyString).

Definition ideographic_space : string :=
  String (ascii_of_nat 227)
    (String (ascii_of_nat 128) (String (ascii_of_nat 128) EmptyString)).

Definition nbsp_queries : list string := ["A" +:+ nbsp +:+ ":1"; "A:2"].

End Scenario.

(** * Checked properties *)

(** ** The string and address helpers on concrete inputs *)

Example endswith_pdf : Str.endswith "http://a.gov/x.pdf" ".pdf" = true.
Proof. reflexivity. Qed.
Example endswith_short : Str.endswith "pdf" ".pdf" = false.
Proof. reflexivity. Qed.
Example split1_colon : Str.split1 ":" "A:b:c" = ["A"; "b:c"].
Proof. reflexivity. Qed.
Example split1_none : Str.split1 ":" "Abc" = ["Abc"].
Proof. reflexivity. Qed.
Example split_slash : Str.split "/" "/a//b/" = [""; "a"; ""; "b"; ""].
Proof. reflexivity. Qed.
Example strip_both : Str.strip "  a b " = "a b".
Proof. reflexivity. Qed.
Example strip_wide :
  Str.strip (Scenario.ideographic_space +:+ " a" +:+ Scenario.nbsp +:+ "b "
             +:+ Scenario.nbsp)
  = "a" +:+ Scenario.nbsp +:+ "b".
Proof. reflexivity. Qed.
Example strip_all_space :
  Str.strip (Scenario.nbsp +:+ " " +:+ Scenario.ideographic_space) = "".
Proof. reflexivity. Qed.
(** A byte that only begins a white-space character is kept. *)
Example strip_partial : Str.strip (String (ascii_of_nat 194) "") = String (ascii_of_nat 194) "".
Proof. reflexivity. Qed.
Example get_queries_no_break_space :
  SearchApplication._get_queries
    (SearchApplication.mkArgs None false (Some Scenario.nbsp_queries))
  = inl [("A", "2")].
Proof. reflexivity. Qed.
Example contains_pdf : Str.contains "application/pdf" "application/pdf; charset=binary" = true.
Proof. reflexivity. Qed.
Example urlparse_ex :
  Url.urlparse "HTTP://a.gov/docs/report.pdf?download=1#top" ""
  = Some (Url.mkParse "http" "a.gov" "/docs/report.pdf" "" "download=1" "top").
Proof. reflexivity. Qed.
Example urlparse_bracket : Url.urlparse "http://[" "" = None.
Proof. reflexivity. Qed.
Example urljoin_rel :
  Url.urljoin "http://a.gov/docs/index.html" "report.pdf?download=1"
  = Some "http://a.gov/docs/report.pdf?download=1".
Proof. reflexivity. Qed.
Example urljoin_dots :
  Url.urljoin "http://a/b/c/d;p?q" "../../g" = Some "http://a/g".
Proof. reflexivity. Qed.
Example urljoin_dot_seg :
  Url.urljoin "http://a/b/c/d;p?q" "./g/." = Some "http://a/b/c/g/".
Proof. reflexivity. Qed.
Example urljoin_query :
  Url.urljoin "http://a/b/c/d;p?q" "?y" = Some "http://a/b/c/d;p?y".
Proof. reflexivity. Qed.
Example urljoin_abs :
  Url.urljoin "http://a/b/c/d;p?q" "//g/x.pdf" = Some "http://g/x.pdf".
Proof. reflexivity. Qed.
Example urljoin_root :
  Url.urljoin "http://a/b/c/d;p?q" "/g.pdf" = Some "http://a/g.pdf".
Proof. reflexivity. Qed.
Example urljoin_other_scheme :
  Url.urljoin "http://a/b" "mailto:x@y.gov" = Some "mailto:x@y.gov".
Proof. reflexivity. Qed.

(** ** The rate limiter *)
Section RateLimiterFacts.
Import RateLimiter.
Local Open Scope Q_scope.

Lemma Qlt_b_true (x y : Q) : Qlt_b x y = true ↔ x < y.
Proof.
  unfold Qlt_b. rewrite negb_true_iff, <- not_true_iff_false, Qle_bool_iff.
  split; [apply Qnot_le_lt | apply Qlt_not_le].
Qed.

Lemma Qlt_b_false (x y : Q) : Qlt_b x y = false ↔ y <= x.
Proof.
  unfold Qlt_b. rewrite negb_false_iff. apply Qle_bool_iff.
Qed.

Section Returns.
Variable netloc_of : string → option string.
Variable sleep_error : Q → option exn.

Lemma sleep_returns (d now : Q) :
  sleep_error d = None → 0 <= d →
  sleep sleep_error d now = inl (now + d) ∧ now <= now + d.
Proof.
  intros Hfit Hd. unfold sleep. rewrite Hfit.
  destruct (Qlt_b d 0) eqn:Hneg.
  - apply Qlt_b_true in Hneg. exfalso. exact (Qlt_not_le _ _ Hneg Hd).
  - split; [reflexivity|].
    rewrite <- (Qplus_0_r now) at 1. now apply Qplus_le_r.
Qed.

(** With a ceiling of at least one, a throttling block never indexes an
    empty window; when [time.sleep] accepts the length that the block asks
    for, it returns, and it never turns the clock back. *)
Lemma throttle_returns (ceiling current_time now bound : Q) (ts : list Q) :
  (1 ≤ int ceiling)%Z →
  (∀ d, 0 <= d → d <= bound → sleep_error d = None) →
  Forall (λ t, 1 - (current_time - t) <= bound) ts →
  ∃ now', throttle sleep_error ceiling current_time ts now = inl now' ∧ now <= now'.
Proof.
  intros Hc Hfit Hts. unfold throttle.
  destruct (int ceiling <=? Z.of_nat (length ts))%Z eqn:Hfull.
  - destruct ts as [|t0 ts].
    + apply Z.leb_le in Hfull. simpl in Hfull. lia.
    + apply Forall_cons in Hts as [Ht0 _].
      destruct (Qlt_b 0 (1 - (current_time - t0))) eqn:Hs.
      * apply Qlt_b_true in Hs.
        destruct (sleep_returns (1 - (current_time - t0)) now) as [-> Hle].
        { apply Hfit; [by apply Qlt_le_weak|done]. }
        { by apply Qlt_le_weak. }
        eexists; split; [reflexivity|exact Hle].
      * eexists; split; [reflexivity|apply Qle_refl].
  - eexists; split; [reflexivity | apply Qle_refl].
Qed.

Lemma Forall_prune (P : Q → Prop) ct l : Forall P l → Forall P (prune ct l).
Proof.
  unfold prune. induction 1 as [|h l Hh _ IH]; simpl; [done|].
  destruct (Qlt_b (ct - h) 1); [by constructor|done].
Qed.

(** When [urlparse] accepts the address, both ceilings truncate to at least
    one, the minimum delay is not negative, and [time.sleep] accepts every
    length up to a [bound] that covers the delay and the sleeps that the
    windows can ask for, [wait] returns. *)
Lemma wait_returns (cfg : Config) (st : state) (url : string)
    (current_time now bound : Q) :
  is_Some (netloc_of url) →
  (1 ≤ int (requests_per_second cfg))%Z →
  (1 ≤ int (domain_rate_limit cfg))%Z →
  0 <= min_request_delay cfg →
  (∀ d, 0 <= d → d <= bound → sleep_error d = None) →
  min_request_delay cfg <= bound →
  Forall (λ t, 1 - (current_time - t) <= bound) (global_timestamps st) →
  (∀ host, Forall (λ t, 1 - (current_time - t) <= bound) (domain_get st host)) →
  ∃ st' released,
    wait netloc_of sleep_error cfg st url current_time now = (st', released, Returned)
    ∧ now <= released.
Proof.
  intros [domain Hdom] Hg Hd Hdelay Hfit Hbound Hgs Hds.
  unfold wait. rewrite Hdom.
  pose proof (Forall_prune _ current_time _ Hgs) as Hgp.
  pose proof (Forall_prune _ current_time _ (Hds domain)) as Hdp.
  set (g := prune _ (global_timestamps st)) in *.
  set (d := prune _ (domain_get st domain)) in *.
  destruct (throttle_returns (requests_per_second cfg) current_time now bound g
              Hg Hfit Hgp) as (now1 & -> & H1).
  destruct (throttle_returns (domain_rate_limit cfg) current_time now1 bound d
              Hd Hfit Hdp) as (now2 & -> & H2).
  destruct (sleep_returns (min_request_delay cfg) now2) as [-> H3];
    [by apply Hfit|done|].
  do 2 eexists. split; [reflexivity|].
  eapply Qle_trans; [exact H1|]. eapply Qle_trans; [exact H2|exact H3].
Qed.

(** Under [Config()], as long as [time.sleep] accepts the quarter second of
    the closing sleep and the sleeps that the windows ask for (in a run, at
    most one second more than the caller waited for the lock), the outcome of
    [wait] does not depend on the limiter state or on the clock: it returns
    unless [urlparse] rejects the address.  This is what
    [PDFSearcher.rate_limiter_wait] records. *)
Lemma wait_default_config (st : state) (url : string) (current_time now bound : Q) :
  (∀ d, 0 <= d → d <= bound → sleep_error d = None) →
  1 # 4 <= bound →
  Forall (λ t, 1 - (current_time - t) <= bound) (global_timestamps st) →
  (∀ host, Forall (λ t, 1 - (current_time - t) <= bound) (domain_get st host)) →
  (wait netloc_of sleep_error default_config st url current_time now).2
  = PDFSearcher.rate_limiter_wait netloc_of url.
Proof.
  intros Hfit Hbound Hgs Hds. unfold PDFSearcher.rate_limiter_wait.
  destruct (netloc_of url) as [domain|] eqn:Hdom.
  - destruct (wait_returns default_config st url current_time now bound)
      as (st' & released & -> & _); done.
  - unfold wait. by rewrite Hdom.
Qed.
End Returns.

(** The concrete [time.sleep] accepts every length from nothing to nine
    thousand million seconds. *)
Lemma time_sleep_accepts (d : Q) :
  0 <= d → d <= inject_Z (9 * 10 ^ 9) → PyTime.sleep_error d = None.
Proof.
  intros H0 H9. unfold PyTime.sleep_error.
  assert (Hhi : Qle_bool (inject_Z (2 ^ 63)) (d * inject_Z (10 ^ 9)) = false).
  { apply not_true_iff_false. rewrite Qle_bool_iff. intros Hle.
    assert (Hd : d * inject_Z (10 ^ 9) <= inject_Z (9 * 10 ^ 9) * inject_Z (10 ^ 9)).
    { apply Qmult_le_compat_r; [done|]. by vm_compute. }
    assert (Hlt : inject_Z (9 * 10 ^ 9) * inject_Z (10 ^ 9) < inject_Z (2 ^ 63))
      by (by vm_compute).
    lra. }
  assert (Hlo : Qlt_b (d * inject_Z (10 ^ 9)) (inject_Z (- 2 ^ 63)) = false).
  { apply Qlt_b_false.
    assert (Hd : 0 <= d * inject_Z (10 ^ 9)).
    { apply Qmult_le_0_compat; [done|]. by vm_compute. }
    assert (Hlt : inject_Z (- 2 ^ 63) <= 0) by (by vm_compute).
    lra. }
  by rewrite Hhi, Hlo.
Qed.

(** *** The ceiling when calls take turns *)

Lemma in_window_true t s : in_window t s = true ↔ s <= t ∧ t - s < 1.
Proof.
  unfold in_window. rewrite andb_true_iff, Qle_bool_iff, Qlt_b_true. done.
Qed.

Lemma admitted_within_app t l1 l2 :
  admitted_within t (l1 ++ l2) = (admitted_within t l1 + admitted_within t l2)%nat.
Proof. unfold admitted_within. by rewrite List.filter_app, length_app. Qed.

Lemma admitted_within_le_length t l : (admitted_within t l ≤ length l)%nat.
Proof. apply List.filter_length_le. Qed.

Lemma admitted_within_cons_out t s l :
  in_window t s = false → admitted_within t (s :: l) = admitted_within t l.
Proof. intros Hs. unfold admitted_within. simpl. by rewrite Hs. Qed.

Lemma admitted_within_prune_le t ct l :
  (admitted_within t (prune ct l) ≤ admitted_within t l)%nat.
Proof.
  unfold admitted_within, prune.
  induction l as [|h l IH]; simpl; [done|].
  destruct (Qlt_b (ct - h) 1); simpl; destruct (in_window t h); simpl; lia.
Qed.

Lemma admitted_within_prune_later t ct l :
  ct <= t → admitted_within t (prune ct l) = admitted_within t l.
Proof.
  intros Hct. unfold admitted_within, prune.
  induction l as [|h l IH]; simpl; [done|].
  destruct (Qlt_b (ct - h) 1) eqn:Hkeep; simpl.
  - destruct (in_window t h); simpl; by rewrite IH.
  - apply Qlt_b_false in Hkeep.
    destruct (in_window t h) eqn:Hin; [|done].
    apply in_window_true in Hin as [_ Hin]. lra.
Qed.

Lemma length_prune ct l :
  Forall (λ h, h <= ct) l → length (prune ct l) = admitted_within ct l.
Proof.
  unfold admitted_within, prune, in_window.
  induction 1 as [|h l Hh _ IH]; simpl; [done|].
  apply Qle_bool_iff in Hh. rewrite Hh. simpl.
  destruct (Qlt_b (ct - h) 1); simpl; by rewrite IH.
Qed.

Lemma Forall_le_trans (l : list Q) (a b : Q) :
  a <= b → Forall (λ h, h <= a) l → Forall (λ h, h <= b) l.
Proof.
  intros Hab Hl. eapply Forall_impl; [exact Hl|]. intros h Hh. simpl in Hh. lra.
Qed.

Lemma window_inv_init c clock : (0 ≤ c)%Z → window_inv c [] [] clock.
Proof. intros Hc. repeat split; try done; intros; simpl; lia. Qed.

Lemma window_inv_advance c H G clock clock' :
  clock <= clock' → window_inv c H G clock → window_inv c H G clock'.
Proof.
  intros Hle (H1 & H2 & H3 & H4 & H5).
  split; [done|]. split; [by eapply Forall_le_trans|].
  split; [by eapply Forall_le_trans|]. split; [|done].
  intros t Ht. apply H4. lra.
Qed.

Lemma window_inv_prune c H G clock ct :
  clock <= ct → window_inv c H G clock →
  window_inv c H (prune ct G) ct
  ∧ (Z.of_nat (length (prune ct G)) ≤ c)%Z.
Proof.
  intros Hle (H1 & H2 & H3 & H4 & H5).
  assert (HG : Forall (λ h, h <= ct) G) by (by eapply Forall_le_trans).
  split.
  - split; [done|]. split; [by eapply Forall_le_trans|].
    split; [by apply Forall_prune|]. split.
    + intros t Ht. rewrite admitted_within_prune_later by done. apply H4. lra.
    + intros t. pose proof (admitted_within_prune_le t ct G). specialize (H5 t). lia.
  - rewrite length_prune by done. apply H5.
Qed.

Lemma window_inv_admit c H g ct s :
  window_inv c H g ct → ct <= s →
  (Z.of_nat (length g) ≤ c)%Z →
  ((c ≤ Z.of_nat (length g))%Z → ∃ g0 rest, g = g0 :: rest ∧ g0 + 1 <= s) →
  window_inv c (H ++ [s]) (g ++ [s]) s.
Proof.
  intros (H1 & H2 & H3 & H4 & H5) Hs Hlen Hfull.
  assert (Hroom : ∀ t, s <= t → (Z.of_nat (admitted_within t g) + 1 ≤ c)%Z).
  { intros t Ht. destruct (Z.le_gt_cases c (Z.of_nat (length g))) as [Hc|Hc].
    - destruct (Hfull Hc) as (g0 & rest & -> & Hg0).
      rewrite admitted_within_cons_out.
      + pose proof (admitted_within_le_length t rest). simpl in Hlen. lia.
      + destruct (in_window t g0) eqn:Hin; [|done].
        apply in_window_true in Hin as [_ Hin]. lra.
    - pose proof (admitted_within_le_length t g). lia. }
  assert (Hone : ∀ t, admitted_within t [s] = 1%nat ∧ s <= t
                      ∨ admitted_within t [s] = 0%nat).
  { intros t. unfold admitted_within. simpl.
    destruct (in_window t s) eqn:Hin; [left|by right].
    apply in_window_true in Hin as [Hin _]. done. }
  split; [|split; [|split; [|split]]].
  - intros t. rewrite admitted_within_app.
    destruct (Hone t) as [[-> Ht]| ->].
    + specialize (Hroom t Ht). assert (ct <= t) by lra.
      specialize (H4 t H0). lia.
    + specialize (H1 t). lia.
  - apply Forall_app. split; [by eapply Forall_le_trans|].
    constructor; [lra|done].
  - apply Forall_app. split; [by eapply Forall_le_trans|].
    constructor; [lra|done].
  - intros t Ht. rewrite !admitted_within_app.
    assert (ct <= t) by lra. specialize (H4 t H0). lia.
  - intros t. rewrite admitted_within_app.
    destruct (Hone t) as [[-> Ht]| ->].
    + specialize (Hroom t Ht). lia.
    + specialize (H5 t). lia.
Qed.

Lemma throttle_spec sleep_error ceiling ct g now now' :
  ct <= now → throttle sleep_error ceiling ct g now = inl now' →
  now <= now'
  ∧ ((int ceiling ≤ Z.of_nat (length g))%Z →
     ∃ g0 rest, g = g0 :: rest ∧ g0 + 1 <= now').
Proof.
  intros Hct. unfold throttle.
  destruct (int ceiling <=? Z.of_nat (length g))%Z eqn:Hfull.
  - destruct g as [|g0 rest]; [done|].
    destruct (Qlt_b 0 (1 - (ct - g0))) eqn:Hs.
    + unfold sleep. destruct (sleep_error _); [done|].
      destruct (Qlt_b (1 - (ct - g0)) 0); [done|]. intros [= <-].
      apply Qlt_b_true in Hs. split; [lra|]. intros _. exists g0, rest.
      split; [done|lra].
    + intros [= <-].
      apply Qlt_b_false in Hs. split; [lra|]. intros _. exists g0, rest.
      split; [done|lra].
  - intros [= <-]. split; [lra|]. apply Z.leb_gt in Hfull. lia.
Qed.

Lemma limiter_inv_advance cfg st clock clock' :
  clock <= clock' → limiter_inv cfg st clock → limiter_inv cfg st clock'.
Proof.
  intros Hle [Hg Hd]. split; [by eapply window_inv_advance|].
  intros host. by eapply window_inv_advance.
Qed.

Lemma domain_get_insert g m a domain d host :
  domain_get (mkState g (<[domain := d]> m) a) host
  = if decide (domain = host) then d else default [] (m !! host).
Proof.
  unfold domain_get. simpl. rewrite lookup_insert. by case_decide.
Qed.

Lemma domain_admitted_snoc g m a domain s host :
  domain_admitted host (mkState g m (a ++ [(domain, s)]))
  = domain_admitted host (mkState g m a) ++ if decide (domain = host) then [s] else [].
Proof.
  unfold domain_admitted. simpl. rewrite List.filter_app, fmap_app. simpl.
  case_decide as Hd.
  - subst. by rewrite String.eqb_refl.
  - destruct (String.eqb domain host) eqn:He; [|done].
    by apply String.eqb_eq in He.
Qed.

Section InTurn.
Variable netloc_of : string → option string.
Variable sleep_error : Q → option exn.

Lemma wait_keeps_inv cfg st url clock ct now :
  limiter_inv cfg st clock → clock <= ct → ct <= now →
  limiter_inv cfg (wait netloc_of sleep_error cfg st url ct now).1.1
    (wait netloc_of sleep_error cfg st url ct now).1.2.
Proof.
  intros [Hg Hd] Hclock Hnow. unfold wait.
  destruct (netloc_of url) as [domain|]; simpl.
  2:{ apply (limiter_inv_advance cfg st clock); [lra|by split]. }
  destruct (window_inv_prune _ _ _ _ ct Hclock Hg) as [Hg1 Hglen].
  destruct (window_inv_prune _ _ _ _ ct Hclock (Hd domain)) as [Hd1 Hdlen].
  set (g := prune ct (global_timestamps st)) in *.
  set (d := prune ct (domain_get st domain)) in *.
  (* the state after the two pruning assignments *)
  assert (Hst1 : ∀ clock', ct <= clock' →
            limiter_inv cfg
              (mkState g (<[domain := d]> (domain_timestamps st)) (admitted st)) clock').
  { intros clock' Hc. split; [by eapply window_inv_advance|].
    intros host. rewrite domain_get_insert. case_decide as Hh.
    - subst host. by eapply window_inv_advance.
    - eapply window_inv_advance; [|exact (Hd host)]. lra. }
  destruct (throttle sleep_error (requests_per_second cfg) ct g now)
    as [now1|e] eqn:Hthr1; simpl; [|by apply Hst1].
  destruct (throttle_spec _ _ _ _ _ _ Hnow Hthr1) as [Hnow1 Hfull1].
  destruct (throttle sleep_error (domain_rate_limit cfg) ct d now1)
    as [now2|e] eqn:Hthr2; simpl; [|apply Hst1; lra].
  destruct (throttle_spec _ _ _ _ _ _ (Qle_trans _ _ _ Hnow Hnow1) Hthr2)
    as [Hnow2 Hfull2].
  (* the state after the two appends *)
  assert (Hst2 : ∀ clock', now2 <= clock' →
            limiter_inv cfg
              (mkState (g ++ [now2])
                 (<[domain := d ++ [now2]]>
                    (<[domain := d]> (domain_timestamps st)))
                 (admitted st ++ [(domain, now2)])) clock').
  { intros clock' Hc. split.
    - unfold global_admitted. simpl. rewrite fmap_app. simpl.
      eapply window_inv_advance; [exact Hc|].
      apply (window_inv_admit _ _ _ ct); [done|lra|done|].
      intros Hc'. destruct (Hfull1 Hc') as (g0 & rest & -> & Hg0).
      exists g0, rest. split; [done|lra].
    - intros host. rewrite domain_get_insert, domain_admitted_snoc.
      case_decide as Hh.
      + subst host. eapply window_inv_advance; [exact Hc|].
        apply (window_inv_admit _ _ _ ct); [done|lra|done|done].
      + rewrite app_nil_r, lookup_insert_ne by done.
        eapply window_inv_advance; [|exact (Hd host)]. lra. }
  unfold sleep. destruct (sleep_error (min_request_delay cfg)); simpl.
  { apply Hst2. lra. }
  destruct (Qlt_b (min_request_delay cfg) 0) eqn:Hneg; simpl.
  - apply Hst2. lra.
  - apply Qlt_b_false in Hneg. apply Hst2. lra.
Qed.

Lemma run_in_turn_keeps_inv cfg calls : ∀ st released,
  Forall (λ c, 0 <= c.2) calls →
  limiter_inv cfg st released →
  limiter_inv cfg (run_in_turn netloc_of sleep_error cfg st released calls).1
    (run_in_turn netloc_of sleep_error cfg st released calls).2.
Proof.
  induction calls as [|[url idle] calls IH]; intros st released Hidle Hinv;
    simpl; [done|].
  apply Forall_cons in Hidle as [Hi Hidle]. simpl in Hi.
  pose proof (wait_keeps_inv cfg st url released (released + idle)
                (released + idle) Hinv) as Hstep.
  destruct (wait netloc_of sleep_error cfg st url (released + idle) (released + idle))
    as [[st' released'] o].
  simpl in Hstep. apply IH; [done|]. apply Hstep; lra.
Qed.

(** X1.  When every call reads the clock after the previous call has
    released the lock, no partition (the global window, any host window) ever
    holds more than its ceiling of admissions in any one-second interval. *)
Theorem ceiling_holds_when_calls_take_turns cfg calls start :
  (0 ≤ int (requests_per_second cfg))%Z →
  (0 ≤ int (domain_rate_limit cfg))%Z →
  Forall (λ c, 0 <= c.2) calls →
  let st := (run_in_turn netloc_of sleep_error cfg init start calls).1 in
  ∀ t,
    (Z.of_nat (admitted_within t (global_admitted st))
     ≤ int (requests_per_second cfg))%Z
    ∧ ∀ host,
        (Z.of_nat (admitted_within t (domain_admitted host st))
         ≤ int (domain_rate_limit cfg))%Z.
Proof.
  intros Hg Hd Hidle st t.
  destruct (run_in_turn_keeps_inv cfg calls init start Hidle) as [Hgi Hdi].
  { split; [by apply window_inv_init|]. intros host.
    unfold domain_admitted, domain_get. simpl. rewrite lookup_empty. simpl.
    by apply window_inv_init. }
  split; [apply Hgi|]. intros host. apply (Hdi host).
Qed.
End InTurn.
End RateLimiterFacts.

(** C4 (as amended).  [RateLimiter.wait] returns normally, having at most
    slept, for every address that [urlparse] accepts and every configuration
    whose two ceilings truncate to at least 1 and whose minimum delay is not
    negative, provided [time.sleep] accepts every length up to a [bound] that
    covers the minimum delay and, for every window entry [t], the throttling
    sleep [1 - (current_time - t)]; the clock at release is not earlier than
    at acquisition. *)
Theorem wait_never_fails_when_ceilings_positive
    (netloc_of : string → option string) (sleep_error : Q → option exn)
    (cfg : Config) (st : RateLimiter.state) (url : string)
    (current_time now bound : Q) :
  is_Some (netloc_of url) →
  (1 ≤ RateLimiter.int (requests_per_second cfg))%Z →
  (1 ≤ RateLimiter.int (domain_rate_limit cfg))%Z →
  (0 <= min_request_delay cfg)%Q →
  (∀ d, 0 <= d → d <= bound → sleep_error d = None)%Q →
  (min_request_delay cfg <= bound)%Q →
  Forall (λ t, 1 - (current_time - t) <= bound)%Q (RateLimiter.global_timestamps st) →
  (∀ host, Forall (λ t, 1 - (current_time - t) <= bound)%Q
             (RateLimiter.domain_get st host)) →
  ∃ st' released,
    RateLimiter.wait netloc_of sleep_error cfg st url current_time now
    = (st', released, Returned)
    ∧ (now <= released)%Q.
Proof. apply wait_returns. Qed.

Lemma wait_never_fails_when_ceilings_positive_witness :
  ∃ st' released,
    RateLimiter.wait Url.netloc_of PyTime.sleep_error default_config
      RateLimiter.init "http://a.gov/budget.pdf" 0 0 = (st', released, Returned)
    ∧ (0 <= released)%Q.
Proof.
  apply (wait_never_fails_when_ceilings_positive Url.netloc_of PyTime.sleep_error
           default_config RateLimiter.init "http://a.gov/budget.pdf" 0 0
           (inject_Z (9 * 10 ^ 9))).
  - vm_compute. eauto.
  - vm_compute. discriminate.
  - vm_compute. discriminate.
  - vm_compute. discriminate.
  - apply time_sleep_accepts.
  - vm_compute. discriminate.
  - constructor.
  - intros host. vm_compute. constructor.
Defined.

(** C4 (as stated) fails: with a ceiling of 0.5 the first call indexes the
    empty global window; with a ceiling of 0.5 for the host it indexes the
    empty host window; a negative minimum delay makes [time.sleep] raise;
    an address with an unbalanced bracket makes [urlparse] raise; a minimum
    delay of 10^19 seconds is more than [time.sleep] can take, and so is the
    throttling sleep of a caller that read the clock 10^11 seconds before
    the entry at the head of its host's window. *)
Lemma wait_raises_on_ceiling_below_one :
  (RateLimiter.wait Url.netloc_of PyTime.sleep_error
     (mkConfig 10 3 20 8 (1 # 2) 1 (1 # 4))
     RateLimiter.init "http://a.gov/budget.pdf" 0 0).2 = Raised IndexError
  ∧ (RateLimiter.wait Url.netloc_of PyTime.sleep_error
       (mkConfig 10 3 20 8 2 (1 # 2) (1 # 4))
       RateLimiter.init "http://a.gov/budget.pdf" 0 0).2 = Raised IndexError
  ∧ (RateLimiter.wait Url.netloc_of PyTime.sleep_error
       (mkConfig 10 3 20 8 2 1 (-1 # 4))
       RateLimiter.init "http://a.gov/budget.pdf" 0 0).2 = Raised ValueError
  ∧ (RateLimiter.wait Url.netloc_of PyTime.sleep_error default_config
       RateLimiter.init "http://[a.gov/budget.pdf" 0 0).2 = Raised ValueError
  ∧ (RateLimiter.wait Url.netloc_of PyTime.sleep_error
       (mkConfig 10 3 20 8 2 1 (inject_Z (10 ^ 19)))
       RateLimiter.init "http://a.gov/budget.pdf" 0 0).2 = Raised OverflowError
  ∧ (RateLimiter.wait Url.netloc_of PyTime.sleep_error default_config
       Scenario.long_wait_state "http://a.gov/budget.pdf" 0
       (inject_Z (10 ^ 11))).2 = Raised OverflowError.
Proof. repeat split; vm_compute; reflexivity. Qed.

(** C2.  The ceiling is exceeded when a worker reads the clock before it
    gets the lock.  Under [Config()] (global ceiling 2) the schedule
    [Scenario.stale_clock_calls] records the admissions 0, 1, 1.5, 2.15 and
    2.41, three of them within the second that ends at 2.41. *)
Theorem stale_clock_exceeds_global_ceiling :
  let st := (RateLimiter.run_calls Url.netloc_of PyTime.sleep_error default_config
               RateLimiter.init 0 Scenario.stale_clock_calls).1 in
  RateLimiter.int (requests_per_second default_config) = 2%Z
  ∧ Forall2 Qeq (RateLimiter.global_admitted st)
      [0; 1; 3 # 2; 215 # 100; 241 # 100]%Q
  ∧ Forall2 Qeq (RateLimiter.global_timestamps st) [1; 3 # 2; 215 # 100; 241 # 100]%Q
  ∧ RateLimiter.admitted_within (241 # 100) (RateLimiter.global_admitted st) = 3%nat.
Proof.
  vm_compute. split; [reflexivity|]. split; [repeat constructor|].
  split; [repeat constructor|reflexivity].
Qed.

(** ** The searcher *)
Section SearcherFacts.
Import PDFSearcher.
Variable netloc_of : string → option string.
Variable urljoin : string → string → option string.
Variable http_head : string → head_result.
Variable http_get : string → get_result.
Variable search : string → nat → option (list string).

Local Abbreviation check := (_check_direct_pdf netloc_of http_head).
Local Abbreviation scrape := (_scrape_page_for_pdfs netloc_of urljoin http_head http_get).
Local Abbreviation process := (_process_url netloc_of urljoin http_head http_get).

(** A probe leaves the cache alone and adds at most its own HEAD to the
    trace. *)
Lemma check_trace depth url st links :
  cache (check depth url st links).1.1 = cache st
  ∧ (trace (check depth url st links).1.1 = trace st
     ∨ trace (check depth url st links).1.1 = trace st ++ [Probe depth url]).
Proof.
  unfold _check_direct_pdf.
  destruct (rate_limiter_wait netloc_of url); [|by auto].
  destruct (http_head url) as [r|[]]; simpl; try by auto.
  destruct (_ && _); simpl; auto.
Qed.

Lemma check_all_trace depth urls : ∀ st links,
  cache (check_all netloc_of http_head depth urls st links).1 = cache st
  ∧ ∃ new,
      trace (check_all netloc_of http_head depth urls st links).1 = trace st ++ new
      ∧ Forall (λ e, ∃ v, e = Probe depth v ∧ v ∈ urls) new.
Proof.
  induction urls as [|u urls IH]; intros st links; simpl.
  - split; [done|]. exists []. by rewrite app_nil_r.
  - destruct (check_trace depth u st links) as [Hc Ht].
    destruct (check depth u st links) as [[st1 links1] o] eqn:E. simpl in *.
    destruct (IH st1 links1) as (Hc' & new & Hnew & Hall).
    split; [congruence|].
    assert (Hweak : Forall (λ e, ∃ v, e = Probe depth v ∧ v ∈ u :: urls) new).
    { eapply Forall_impl; [exact Hall|]. intros e (v & -> & Hv).
      exists v. split; [done|]. by right. }
    destruct Ht as [Ht|Ht]; rewrite Hnew, Ht.
    + by exists new.
    + exists (Probe depth u :: new). split; [by rewrite <- app_assoc|].
      constructor; [|done]. exists u. split; [done|]. by left.
Qed.

(** A scrape issues its own GET first, if anything, and then only probes
    one level deeper. *)
Lemma scrape_trace depth url st links :
  cache (scrape depth url st links).1.1 = cache st
  ∧ (trace (scrape depth url st links).1.1 = trace st
     ∨ ∃ rest,
         trace (scrape depth url st links).1.1 = trace st ++ Scrape depth url :: rest
         ∧ Forall (λ e, ∃ v, e = Probe (S depth) v) rest).
Proof.
  unfold _scrape_page_for_pdfs.
  destruct (rate_limiter_wait netloc_of url); [|by auto].
  assert (Hnone : ∀ (l : gset string) (o : outcome),
    cache (log (Scrape depth url) st, l, o).1.1 = cache st
    ∧ (trace (log (Scrape depth url) st, l, o).1.1 = trace st
       ∨ ∃ rest, trace (log (Scrape depth url) st, l, o).1.1
                 = trace st ++ Scrape depth url :: rest
                 ∧ Forall (λ e, ∃ v, e = Probe (S depth) v) rest)).
  { intros l o. split; [done|]. right. exists []. by split. }
  destruct (http_get url) as [status hrefs|[]]; try apply Hnone.
  destruct (raise_for_status status); [|apply Hnone].
  destruct (pdf_urls_of urljoin url hrefs ∅) as [pdf_urls|]; [|apply Hnone].
  destruct (check_all_trace (S depth) (elements pdf_urls)
              (log (Scrape depth url) st) links) as (Hc & new & Hnew & Hall).
  destruct (check_all _ _ _ _ _ _) as [st' links']. simpl in *.
  split; [done|]. right. exists new. split.
  - by rewrite Hnew, <- app_assoc.
  - eapply Forall_impl; [exact Hall|]. intros e (v & -> & _). by exists v.
Qed.

Lemma process_trace url st links :
  ∃ new, trace (process url st links).1.1 = trace st ++ new
         ∧ Forall (hop url) new.
Proof.
  unfold _process_url.
  destruct (decide (url ∈ cache st)).
  { exists []. by rewrite app_nil_r. }
  destruct (rate_limiter_wait netloc_of url).
  2:{ exists []. by rewrite app_nil_r. }
  set (st0 := mkState ({[url]} ∪ cache st) (trace st)).
  destruct (Str.endswith url ".pdf").
  - destruct (check_trace 1 url st0 links) as [_ Ht].
    destruct (check 1 url st0 links) as [[st' links'] o]. simpl in *.
    destruct Ht as [->| ->].
    + exists []. by rewrite app_nil_r.
    + exists [Probe 1 url]. split; [done|]. repeat constructor.
  - destruct (scrape_trace 1 url st0 links) as [_ Ht].
    destruct (scrape 1 url st0 links) as [[st' links'] o]. simpl in *.
    destruct Ht as [->|(rest & -> & Hrest)].
    + exists []. by rewrite app_nil_r.
    + exists (Scrape 1 url :: rest). split; [done|].
      constructor; [right; by left|].
      eapply Forall_impl; [exact Hrest|]. intros e He. right; by right.
Qed.

Lemma process_all_trace urls : ∀ st links,
  ∃ new,
    trace (process_all netloc_of urljoin http_head http_get urls st links).1
    = trace st ++ new
    ∧ Forall (λ e, ∃ u, u ∈ urls ∧ hop u e) new.
Proof.
  induction urls as [|u urls IH]; intros st links; simpl.
  - exists []. by rewrite app_nil_r.
  - destruct (process_trace u st links) as (new1 & H1 & Hall1).
    destruct (process u st links) as [[st1 links1] o]. simpl in *.
    destruct (IH st1 links1) as (new2 & H2 & Hall2).
    exists (new1 ++ new2). split.
    + by rewrite H2, H1, <- app_assoc.
    + apply Forall_app. split.
      * eapply Forall_impl; [exact Hall1|]. intros e He. exists u.
        split; [by left|done].
      * eapply Forall_impl; [exact Hall2|]. intros e (v & Hv & He).
        exists v. split; [by right|done].
Qed.

(** A query adds its [Search] event and then only what its search
    results add. *)
Lemma find_pdf_links_trace cfg query st :
  ∃ new,
    trace (find_pdf_links netloc_of urljoin http_head http_get search cfg query st).1
    = trace st ++ Search query :: new
    ∧ Forall (λ e, ∃ u, u ∈ default [] (search query (search_results_limit cfg))
                        ∧ hop u e) new.
Proof.
  unfold find_pdf_links.
  destruct (search query (search_results_limit cfg)) as [seeds|]; simpl.
  - destruct (process_all_trace seeds (log (Search query) st) ∅)
      as (new & Hnew & Hall).
    exists new. split; [|done]. rewrite Hnew. simpl. by rewrite <- app_assoc.
  - exists []. by split.
Qed.
End SearcherFacts.

(** C3 (as amended).  [_check_direct_pdf] adds its address to the output set
    exactly when the HEAD was issued and answered with status 200 and a
    [Content-Type] value that contains the text [application/pdf], letter for
    letter in lower case; it adds nothing else, and an answer that fails this
    test or a raised request leaves the set as it was. *)
Theorem probe_adds_iff_head_is_200_pdf
    (netloc_of : string → option string)
    (http_head : string → PDFSearcher.head_result)
    (depth : nat) (url : string) (st : PDFSearcher.state) (pdf_links : gset string) :
  let pdf_links' :=
    (PDFSearcher._check_direct_pdf netloc_of http_head depth url st pdf_links).1.2 in
  (∀ v, v ∈ pdf_links' ↔
        v ∈ pdf_links
        ∨ v = url
          ∧ PDFSearcher.rate_limiter_wait netloc_of url = Returned
          ∧ ∃ response,
              http_head url = PDFSearcher.HeadResponse response
              ∧ PDFSearcher.status_code response = 200%Z
              ∧ Str.contains "application/pdf"
                  (PDFSearcher.headers_get (PDFSearcher.headers response)
                     "Content-Type" "") = true)
  ∧ (∀ response,
        http_head url = PDFSearcher.HeadResponse response →
        PDFSearcher.status_code response ≠ 200%Z
        ∨ Str.contains "application/pdf"
            (PDFSearcher.headers_get (PDFSearcher.headers response)
               "Content-Type" "") = false →
        pdf_links' = pdf_links)
  ∧ (∀ e, http_head url = PDFSearcher.HeadRaises e → pdf_links' = pdf_links).
Proof.
  unfold PDFSearcher._check_direct_pdf. simpl.
  destruct (PDFSearcher.rate_limiter_wait netloc_of url) eqn:Hwait; simpl.
  2:{ split; [|by split]. intros v. split; [by left|].
      intros [Hv|(_ & Hr & _)]; [done|discriminate]. }
  destruct (http_head url) as [r|e] eqn:Hhead; simpl.
  - destruct (PDFSearcher.status_code r =? 200)%Z eqn:Hstatus; simpl.
    + apply Z.eqb_eq in Hstatus.
      destruct (Str.contains _ _) eqn:Hct; simpl.
      * split; [|split].
        -- intros v. rewrite elem_of_union, elem_of_singleton. split.
           ++ intros [->|Hv]; [right|by left].
              split; [done|]. split; [done|]. by exists r.
           ++ intros [Hv|(-> & _)]; [by right|by left].
        -- intros r' [= <-] [Hne|Hf]; [done|congruence].
        -- intros e [=].
      * split; [|split; [done|done]].
        intros v. split; [by left|].
        intros [Hv|(_ & _ & r' & [= <-] & _ & Hct')]; [done|congruence].
    + apply Z.eqb_neq in Hstatus.
      split; [|split; [done|done]].
      intros v. split; [by left|].
      intros [Hv|(_ & _ & r' & [= <-] & Hs & _)]; [done|congruence].
  - destruct e; simpl;
      (split; [|by split]); intros v; (split; [by left|]);
      intros [Hv|(_ & _ & r' & [=] & _)]; done.
Qed.

(** C3 (as stated) fails: the code does not compare media types.  A server
    that answers 200 with [Content-Type: Application/PDF], the PDF media type
    in capitals, is probed and not added; a server that answers 200 with an
    HTML page whose [Content-Type] spells [application/pdf] in a parameter is
    probed and added. *)
Lemma probe_tests_text_not_media_type :
  Scenario.media_type "Application/PDF" = "application/pdf"
  ∧ PDFSearcher.trace
      (PDFSearcher._check_direct_pdf Url.netloc_of Scenario.capitals_head 1
         "http://a.gov/budget.pdf" PDFSearcher.init ∅).1.1
    = [PDFSearcher.Probe 1 "http://a.gov/budget.pdf"]
  ∧ ("http://a.gov/budget.pdf"
     ∉ (PDFSearcher._check_direct_pdf Url.netloc_of Scenario.capitals_head 1
          "http://a.gov/budget.pdf" PDFSearcher.init ∅).1.2)
  ∧ Scenario.media_type "text/html; note=application/pdf" = "text/html"
  ∧ ("http://a.gov/page.pdf"
     ∈ (PDFSearcher._check_direct_pdf Url.netloc_of Scenario.html_head 1
          "http://a.gov/page.pdf" PDFSearcher.init ∅).1.2).
Proof.
  split; [reflexivity|]. split; [reflexivity|]. split; [|split; [reflexivity|]].
  - apply (bool_decide_unpack _). vm_compute. exact I.
  - apply (bool_decide_unpack _). vm_compute. exact I.
Qed.

(** C5.  One query scrapes only its own search results, at depth 1; a link
    taken from a page is only probed, at depth 2; no request lies deeper. *)
Theorem scrape_only_search_results
    (netloc_of : string → option string)
    (urljoin : string → string → option string)
    (http_head : string → PDFSearcher.head_result)
    (http_get : string → PDFSearcher.get_result)
    (search : string → nat → option (list string))
    (cfg : Config) (query : string) (st : PDFSearcher.state) :
  let seeds := default [] (search query (search_results_limit cfg)) in
  ∃ new,
    PDFSearcher.trace
      (PDFSearcher.find_pdf_links netloc_of urljoin http_head http_get search
         cfg query st).1
    = PDFSearcher.trace st ++ PDFSearcher.Search query :: new
    ∧ Forall (λ e,
        1 ≤ PDFSearcher.depth_of e ≤ 2
        ∧ (∀ d u, e = PDFSearcher.Scrape d u → d = 1 ∧ u ∈ seeds)
        ∧ (∀ d v, e = PDFSearcher.Probe d v → d = 1 ∧ v ∈ seeds ∨ d = 2)
        ∧ (PDFSearcher.depth_of e = 2 → ∃ v, e = PDFSearcher.Probe 2 v)) new.
Proof.
  intros seeds.
  destruct (find_pdf_links_trace netloc_of urljoin http_head http_get search
              cfg query st) as (new & Hnew & Hall).
  exists new. split; [exact Hnew|].
  eapply Forall_impl; [exact Hall|].
  intros e (u & Hu & [->|[->|[v ->]]]); simpl.
  - split; [lia|]. split; [intros d w [=]|].
    split; [intros d w [= <- <-]; by left | intros [=]].
  - split; [lia|]. split; [by intros d w [= <- <-]|].
    split; [intros d w [=] | intros [=]].
  - split; [lia|]. split; [intros d w [=]|].
    split; [intros d w [= <- <-]; by right | intros _; by exists v].
Qed.

Section SearcherRouting.
Import PDFSearcher.
Variable netloc_of : string → option string.
Variable urljoin : string → string → option string.
Variable http_head : string → head_result.
Variable http_get : string → get_result.

(** Once the limiter lets it through, a probe issues exactly its HEAD. *)
Lemma check_trace_issued depth url st links :
  rate_limiter_wait netloc_of url = Returned →
  trace (_check_direct_pdf netloc_of http_head depth url st links).1.1
  = trace st ++ [Probe depth url].
Proof.
  intros Hwait. unfold _check_direct_pdf. rewrite Hwait.
  destruct (http_head url) as [r|[]]; simpl; try done.
  by destruct (_ && _).
Qed.

(** Once the limiter lets it through, a scrape issues its GET and then
    only probes of depth one more. *)
Lemma scrape_trace_issued depth url st links :
  rate_limiter_wait netloc_of url = Returned →
  ∃ rest,
    trace (_scrape_page_for_pdfs netloc_of urljoin http_head http_get
             depth url st links).1.1
    = trace st ++ Scrape depth url :: rest
    ∧ Forall (λ e, ∃ v, e = Probe (S depth) v) rest.
Proof.
  intros Hwait. unfold _scrape_page_for_pdfs. rewrite Hwait.
  assert (Hnone : ∀ (l : gset string) (o : outcome),
    ∃ rest, trace (log (Scrape depth url) st, l, o).1.1
            = trace st ++ Scrape depth url :: rest
            ∧ Forall (λ e, ∃ v, e = Probe (S depth) v) rest).
  { intros l o. exists []. by split. }
  destruct (http_get url) as [status hrefs|[]]; try apply Hnone.
  destruct (raise_for_status status); [|apply Hnone].
  destruct (pdf_urls_of urljoin url hrefs ∅) as [pdf_urls|]; [|apply Hnone].
  destruct (check_all_trace netloc_of http_head (S depth) (elements pdf_urls)
              (log (Scrape depth url) st) links) as (_ & new & Hnew & Hall).
  destruct (check_all _ _ _ _ _ _) as [st' links']. simpl in *.
  exists new. split; [by rewrite Hnew, <- app_assoc|].
  eapply Forall_impl; [exact Hall|]. intros e (v & -> & _). by exists v.
Qed.

(** The set comprehension of the scrape, with its accumulator. *)
Lemma pdf_urls_of_elem url hrefs : ∀ acc s,
  pdf_urls_of urljoin url hrefs acc = Some s →
  ∀ v, v ∈ s ↔
       v ∈ acc
       ∨ ∃ href, href ∈ hrefs ∧ Str.endswith href ".pdf" = true
                 ∧ urljoin url href = Some v.
Proof.
  induction hrefs as [|h hrefs IH]; intros acc s Hs v; simpl in Hs.
  - injection Hs as <-. split; [by left|].
    intros [Hv|(href & Hin & _)]; [done|]. by apply elem_of_nil in Hin.
  - destruct (Str.endswith h ".pdf") eqn:Hpdf.
    + destruct (urljoin url h) as [w|] eqn:Hjoin; [|discriminate].
      rewrite (IH _ _ Hs v), elem_of_union, elem_of_singleton. split.
      * intros [[->|Hv]|(href & Hin & He & Hj)].
        -- right. exists h. split; [by left|done].
        -- by left.
        -- right. exists href. split; [by right|done].
      * intros [Hv|(href & Hin & He & Hj)]; [left; by right|].
        apply elem_of_cons in Hin as [->|Hin].
        -- left; left. congruence.
        -- right. by exists href.
    + rewrite (IH _ _ Hs v). split.
      * intros [Hv|(href & Hin & He & Hj)]; [by left|].
        right. exists href. split; [by right|done].
      * intros [Hv|(href & Hin & He & Hj)]; [by left|].
        apply elem_of_cons in Hin as [->|Hin]; [congruence|].
        right. by exists href.
Qed.

Lemma pdf_urls_of_total url hrefs : ∀ acc,
  (∀ href, href ∈ hrefs → Str.endswith href ".pdf" = true →
           is_Some (urljoin url href)) →
  is_Some (pdf_urls_of urljoin url hrefs acc).
Proof.
  induction hrefs as [|h hrefs IH]; intros acc Hres; simpl; [by eexists|].
  destruct (Str.endswith h ".pdf") eqn:Hpdf.
  - destruct (Hres h) as [w ->]; [by left|done|].
    apply IH. intros href Hin. apply Hres. by right.
  - apply IH. intros href Hin. apply Hres. by right.
Qed.
End SearcherRouting.

(** C7 (as amended).  A search result that is claimed (not yet in the cache)
    and whose address [urlparse] accepts is probed directly if and only if
    the whole address string ends with [.pdf]; otherwise it is scraped.  The
    decision reads the address string, query string and fragment included,
    not its path component. *)
Theorem route_by_suffix_of_whole_address
    (netloc_of : string → option string)
    (urljoin : string → string → option string)
    (http_head : string → PDFSearcher.head_result)
    (http_get : string → PDFSearcher.get_result)
    (url : string) (st : PDFSearcher.state) (pdf_links : gset string) :
  url ∉ PDFSearcher.cache st →
  is_Some (netloc_of url) →
  let st' :=
    (PDFSearcher._process_url netloc_of urljoin http_head http_get
       url st pdf_links).1.1 in
  PDFSearcher.cache st' = {[url]} ∪ PDFSearcher.cache st
  ∧ if Str.endswith url ".pdf"
    then PDFSearcher.trace st' = PDFSearcher.trace st ++ [PDFSearcher.Probe 1 url]
    else ∃ rest,
        PDFSearcher.trace st'
        = PDFSearcher.trace st ++ PDFSearcher.Scrape 1 url :: rest
        ∧ Forall (λ e, ∃ v, e = PDFSearcher.Probe 2 v) rest.
Proof.
  intros Hfresh [domain Hdom].
  assert (Hwait : PDFSearcher.rate_limiter_wait netloc_of url = Returned).
  { unfold PDFSearcher.rate_limiter_wait. by rewrite Hdom. }
  unfold PDFSearcher._process_url.
  destruct (decide (url ∈ PDFSearcher.cache st)); [done|]. rewrite Hwait.
  set (st0 := PDFSearcher.mkState ({[url]} ∪ PDFSearcher.cache st) (PDFSearcher.trace st)).
  destruct (Str.endswith url ".pdf").
  - pose proof (check_trace_issued netloc_of http_head 1 url st0 pdf_links Hwait) as Ht.
    destruct (check_trace netloc_of http_head 1 url st0 pdf_links) as [Hc _].
    destruct (PDFSearcher._check_direct_pdf _ _ _ _ _ _) as [[st' l'] o].
    simpl in *. by split.
  - destruct (scrape_trace_issued netloc_of urljoin http_head http_get 1 url st0
                pdf_links Hwait) as (rest & Ht & Hrest).
    destruct (scrape_trace netloc_of urljoin http_head http_get 1 url st0 pdf_links)
      as [Hc _].
    destruct (PDFSearcher._scrape_page_for_pdfs _ _ _ _ _ _ _ _) as [[st' l'] o].
    simpl in *. split; [done|]. by exists rest.
Qed.

Lemma route_by_suffix_of_whole_address_witness :
  let st' :=
    (PDFSearcher._process_url Url.netloc_of Url.urljoin Scenario.site_head
       Scenario.site_get Scenario.budget_pdf PDFSearcher.init ∅).1.1 in
  PDFSearcher.cache st' = {[Scenario.budget_pdf]} ∪ ∅
  ∧ PDFSearcher.trace st' = [] ++ [PDFSearcher.Probe 1 Scenario.budget_pdf].
Proof.
  apply (route_by_suffix_of_whole_address Url.netloc_of Url.urljoin
           Scenario.site_head Scenario.site_get Scenario.budget_pdf
           PDFSearcher.init ∅).
  - apply not_elem_of_empty.
  - vm_compute. eauto.
Defined.

(** C7 (as stated) fails: an address whose path ends with [.pdf] but which
    carries a query string is scraped, not probed; an address whose path is
    not a [.pdf] but whose query string ends with [.pdf] is probed; and an
    address that [urlparse] rejects is claimed but neither probed nor
    scraped. *)
Lemma route_ignores_path_component :
  (Url.path_of Scenario.download_link = Some "/docs/report.pdf"
   ∧ Str.endswith "/docs/report.pdf" ".pdf" = true
   ∧ PDFSearcher.trace
       (PDFSearcher._process_url Url.netloc_of Url.urljoin Scenario.docs_head
          Scenario.docs_get Scenario.download_link PDFSearcher.init ∅).1.1
     = [PDFSearcher.Scrape 1 Scenario.download_link])
  ∧ (Url.path_of Scenario.viewer_link = Some "/docs/view"
     ∧ Str.endswith "/docs/view" ".pdf" = false
     ∧ PDFSearcher.trace
         (PDFSearcher._process_url Url.netloc_of Url.urljoin Scenario.docs_head
            Scenario.docs_get Scenario.viewer_link PDFSearcher.init ∅).1.1
       = [PDFSearcher.Probe 1 Scenario.viewer_link])
  ∧ (Str.endswith "http://[a.gov/index.html" ".pdf" = false
     ∧ PDFSearcher.trace
         (PDFSearcher._process_url Url.netloc_of Url.urljoin Scenario.docs_head
            Scenario.docs_get "http://[a.gov/index.html" PDFSearcher.init ∅).1.1
       = []
     ∧ "http://[a.gov/index.html"
       ∈ PDFSearcher.cache
           (PDFSearcher._process_url Url.netloc_of Url.urljoin Scenario.docs_head
              Scenario.docs_get "http://[a.gov/index.html" PDFSearcher.init ∅).1.1).
Proof.
  split; [repeat split; vm_compute; reflexivity|].
  split; [repeat split; vm_compute; reflexivity|].
  split; [reflexivity|]. split; [vm_compute; reflexivity|].
  apply (bool_decide_unpack _). vm_compute. exact I.
Qed.

(** C6 (as amended).  For a fetched page, the links handed on by the scrape
    are exactly the [href] values whose own text ends with [.pdf], each
    resolved with [urljoin] against the address the page was requested at;
    the suffix test reads the raw [href], before it is resolved, and not the
    path of the resolved address.  The set exists whenever each such [href]
    resolves. *)
Theorem scrape_keeps_hrefs_ending_in_pdf
    (urljoin : string → string → option string)
    (url : string) (hrefs : list string) :
  (∀ href, href ∈ hrefs → Str.endswith href ".pdf" = true →
           is_Some (urljoin url href)) →
  ∃ pdf_urls,
    PDFSearcher.pdf_urls_of urljoin url hrefs ∅ = Some pdf_urls
    ∧ ∀ v, v ∈ pdf_urls ↔
           ∃ href, href ∈ hrefs ∧ Str.endswith href ".pdf" = true
                   ∧ urljoin url href = Some v.
Proof.
  intros Hres.
  destruct (pdf_urls_of_total urljoin url hrefs ∅ Hres) as [s Hs].
  exists s. split; [exact Hs|]. intros v.
  rewrite (pdf_urls_of_elem urljoin url hrefs ∅ s Hs v).
  split; [intros [Hv|Hv]; [by apply not_elem_of_empty in Hv|done] | by right].
Qed.

Lemma scrape_keeps_hrefs_ending_in_pdf_witness :
  ∃ pdf_urls,
    PDFSearcher.pdf_urls_of Url.urljoin Scenario.docs_page Scenario.docs_hrefs ∅
    = Some pdf_urls
    ∧ ∀ v, v ∈ pdf_urls ↔
           ∃ href, href ∈ Scenario.docs_hrefs ∧ Str.endswith href ".pdf" = true
                   ∧ Url.urljoin Scenario.docs_page href = Some v.
Proof.
  apply (scrape_keeps_hrefs_ending_in_pdf Url.urljoin Scenario.docs_page
           Scenario.docs_hrefs).
  intros href Hin _.
  apply elem_of_cons in Hin as [->|Hin]; [vm_compute; eauto|].
  apply elem_of_cons in Hin as [->|Hin]; [vm_compute; eauto|].
  by apply elem_of_nil in Hin.
Defined.

(** C6 (as stated) fails on [Scenario.docs_page]: the download link resolves
    to an address whose path ends with [.pdf] and is left out; the viewer
    link resolves to an address whose path does not end with [.pdf] and is
    kept.  And a page with a [.pdf] link that [urljoin] rejects yields no
    set at all. *)
Lemma scrape_misjudges_query_strings :
  PDFSearcher.pdf_urls_of Url.urljoin Scenario.docs_page
    ["report.pdf"; "http://[a.gov/annex.pdf"] ∅ = None
  ∧ ∃ pdf_urls,
    PDFSearcher.pdf_urls_of Url.urljoin Scenario.docs_page Scenario.docs_hrefs ∅
    = Some pdf_urls
    ∧ (Url.urljoin Scenario.docs_page "report.pdf?download=1"
       = Some Scenario.download_link
       ∧ Url.path_of Scenario.download_link = Some "/docs/report.pdf"
       ∧ Str.endswith "/docs/report.pdf" ".pdf" = true
       ∧ Scenario.download_link ∉ pdf_urls)
    ∧ (Url.urljoin Scenario.docs_page "view?file=report.pdf"
       = Some Scenario.viewer_link
       ∧ Url.path_of Scenario.viewer_link = Some "/docs/view"
       ∧ Str.endswith "/docs/view" ".pdf" = false
       ∧ Scenario.viewer_link ∈ pdf_urls).
Proof.
  split; [reflexivity|].
  exists ({[Scenario.viewer_link]} ∪ ∅). split; [reflexivity|].
  split; (split; [reflexivity|]); (split; [reflexivity|]); (split; [reflexivity|]).
  - rewrite elem_of_union, elem_of_singleton.
    intros [Heq|Hin]; [discriminate | by apply not_elem_of_empty in Hin].
  - apply elem_of_union_l. by apply elem_of_singleton.
Qed.

Section VisitedCache.
Import PDFSearcher.
Variable netloc_of : string → option string.
Variable urljoin : string → string → option string.
Variable http_head : string → head_result.
Variable http_get : string → get_result.
Variable search : string → nat → option (list string).

Lemma seed_requests_to_app u tr1 tr2 :
  seed_requests_to u (tr1 ++ tr2) = seed_requests_to u tr1 + seed_requests_to u tr2.
Proof. unfold seed_requests_to. by rewrite List.filter_app, length_app. Qed.

Lemma seed_requests_to_deeper u rest :
  Forall (λ e, ∃ v, e = Probe 2 v) rest → seed_requests_to u rest = 0.
Proof.
  induction 1 as [|e rest [v ->] _ IH]; [done|]. exact IH.
Qed.

(** The shape of what one search result adds. *)
Lemma process_shape url st links :
  let st' := (_process_url netloc_of urljoin http_head http_get url st links).1.1 in
  (url ∈ cache st → st' = st)
  ∧ (url ∉ cache st →
     cache st' = {[url]} ∪ cache st
     ∧ ∃ new, trace st' = trace st ++ new
         ∧ (new = [] ∨ new = [Probe 1 url]
            ∨ ∃ rest, new = Scrape 1 url :: rest
                      ∧ Forall (λ e, ∃ v, e = Probe 2 v) rest)).
Proof.
  unfold _process_url.
  destruct (decide (url ∈ cache st)) as [Hin|Hout]; simpl; [by split|].
  split; [done|]. intros _.
  set (st0 := mkState ({[url]} ∪ cache st) (trace st)).
  destruct (rate_limiter_wait netloc_of url); simpl.
  2:{ split; [done|]. exists []. split; [by rewrite app_nil_r|by left]. }
  destruct (Str.endswith url ".pdf").
  - destruct (check_trace netloc_of http_head 1 url st0 links) as [Hc Ht].
    destruct (_check_direct_pdf _ _ _ _ _ _) as [[st' links'] o]. simpl in *.
    split; [done|]. destruct Ht as [->| ->].
    + exists []. split; [by rewrite app_nil_r|by left].
    + exists [Probe 1 url]. split; [done|]. right; by left.
  - destruct (scrape_trace netloc_of urljoin http_head http_get 1 url st0 links)
      as [Hc Ht].
    destruct (_scrape_page_for_pdfs _ _ _ _ _ _ _ _) as [[st' links'] o].
    simpl in *. split; [done|]. destruct Ht as [->|(rest & -> & Hrest)].
    + exists []. split; [by rewrite app_nil_r|by left].
    + exists (Scrape 1 url :: rest). split; [done|]. right; right. by exists rest.
Qed.

Lemma process_keeps_cache_inv url st links :
  cache_inv st →
  cache_inv (_process_url netloc_of urljoin http_head http_get url st links).1.1.
Proof.
  intros Hinv.
  destruct (process_shape url st links) as [Hseen Hfresh].
  destruct (decide (url ∈ cache st)) as [Hin|Hout].
  { by rewrite (Hseen Hin). }
  destruct (Hfresh Hout) as (Hcache & new & Hnew & Hshape).
  assert (Hcount : ∀ u, seed_requests_to u new ≤ 1
                        ∧ (u ≠ url → seed_requests_to u new = 0)).
  { intros u. destruct Hshape as [->|[->|(rest & -> & Hrest)]].
    - split; [unfold seed_requests_to; simpl; lia|done].
    - unfold seed_requests_to. simpl.
      destruct (String.eqb u url) eqn:He; simpl; (split; [lia|]); [|done].
      intros Hne. by apply String.eqb_eq in He.
    - change (Scrape 1 url :: rest) with ([Scrape 1 url] ++ rest).
      rewrite seed_requests_to_app, (seed_requests_to_deeper u rest Hrest).
      unfold seed_requests_to. simpl.
      destruct (String.eqb u url) eqn:He; simpl; (split; [lia|]); [|done].
      intros Hne. by apply String.eqb_eq in He. }
  intros u. rewrite Hnew, Hcache, seed_requests_to_app.
  destruct (Hinv u) as [Hle Hzero], (Hcount u) as [Hle' Hzero'].
  destruct (decide (u = url)) as [->|Hne].
  - rewrite (Hzero Hout). split; [lia|]. intros Hu. exfalso. apply Hu.
    apply elem_of_union_l. by apply elem_of_singleton.
  - rewrite (Hzero' Hne). split; [lia|]. intros Hu. rewrite Hzero; [done|].
    intros Hin. apply Hu. by apply elem_of_union_r.
Qed.

Lemma process_all_keeps_cache_inv urls : ∀ st links,
  cache_inv st →
  cache_inv (process_all netloc_of urljoin http_head http_get urls st links).1.
Proof.
  induction urls as [|u urls IH]; intros st links Hinv; simpl; [done|].
  pose proof (process_keeps_cache_inv u st links Hinv) as Hstep.
  destruct (_process_url _ _ _ _ _ _ _) as [[st' links'] o]. by apply IH.
Qed.

Lemma find_pdf_links_keeps_cache_inv cfg query st :
  cache_inv st →
  cache_inv (find_pdf_links netloc_of urljoin http_head http_get search cfg query st).1.
Proof.
  intros Hinv. unfold find_pdf_links.
  assert (Hlog : cache_inv (log (Search query) st)).
  { intros u. unfold log. simpl. rewrite seed_requests_to_app.
    change (seed_requests_to u [Search query]) with 0. rewrite Nat.add_0_r.
    apply Hinv. }
  destruct (search query (search_results_limit cfg)); simpl; [|done].
  by apply process_all_keeps_cache_inv.
Qed.

Lemma search_all_keeps_cache_inv cfg queries : ∀ st results,
  cache_inv st →
  cache_inv (SearchApplication.search_all netloc_of urljoin http_head http_get
               search cfg queries st results).1.
Proof.
  induction queries as [|[title query] queries IH]; intros st results Hinv;
    simpl; [done|].
  pose proof (find_pdf_links_keeps_cache_inv cfg query st Hinv) as Hstep.
  destruct (find_pdf_links _ _ _ _ _ _ _ _) as [st' links]. by apply IH.
Qed.

(** X11.  In a whole run, over all queries, no address is requested (HEAD
    or GET) more than once as a search result. *)
Lemma search_results_requested_at_most_once timestamp ctime args u :
  seed_requests_to u
    (SearchApplication.run netloc_of urljoin http_head http_get search
       timestamp ctime args).1 ≤ 1.
Proof.
  unfold SearchApplication.run, SearchApplication._perform_searches.
  destruct (SearchApplication._get_queries args) as [queries|e]; simpl;
    [|unfold seed_requests_to; simpl; lia].
  pose proof (search_all_keeps_cache_inv default_config queries init []) as Hinv.
  destruct (SearchApplication.search_all _ _ _ _ _ _ _ _ _) as [st results].
  simpl in *. apply Hinv. intros v.
  split; [unfold seed_requests_to; simpl; lia|done].
Qed.
End VisitedCache.

(** C1.  A link taken from a page is probed without consulting the visited
    cache.  On [Scenario.site_search] the report is a search result, is
    claimed and probed, and is then probed a second time as a link of the
    index page: two requests to one address in one run. *)
Theorem child_links_bypass_visited_cache :
  let st :=
    (PDFSearcher.find_pdf_links Url.netloc_of Url.urljoin Scenario.site_head
       Scenario.site_get Scenario.site_search default_config "budget"
       PDFSearcher.init).1 in
  PDFSearcher.trace st
  = [PDFSearcher.Search "budget";
     PDFSearcher.Probe 1 Scenario.budget_pdf;
     PDFSearcher.Scrape 1 Scenario.index_page;
     PDFSearcher.Probe 2 Scenario.budget_pdf]
  ∧ PDFSearcher.requests_to Scenario.budget_pdf (PDFSearcher.trace st) = 2
  ∧ Scenario.budget_pdf ∈ PDFSearcher.cache st.
Proof.
  split; [vm_compute; reflexivity|]. split; [vm_compute; reflexivity|].
  apply (bool_decide_unpack _). vm_compute. exact I.
Qed.

(** ** The result file *)
Section FileHandlerFacts.
Import FileHandler.

(** [String.le] is the lexicographic order on character codes. *)
Lemma string_le_lexicographic (a b : ascii) (s t : string) :
  String.leb EmptyString s = true
  ∧ String.leb (String a s) EmptyString = false
  ∧ String.leb (String a s) (String b t)
    = match Ascii.compare a b with
      | Lt => true
      | Eq => String.leb s t
      | Gt => false
      end.
Proof.
  unfold String.leb. simpl. split; [by destruct s|]. split; [done|].
  by destruct (Ascii.compare a b).
Qed.

Lemma write_links_rows title links : ∀ w,
  write_links title links w = w ++ map (λ link, [Text title; Text link]) links.
Proof.
  induction links as [|l links IH]; intros w; simpl.
  - by rewrite app_nil_r.
  - rewrite IH. unfold writerow. by rewrite <- app_assoc.
Qed.

(** The rows of one query: its links in order, then the separator. *)
Lemma write_queries_rows items : ∀ w total,
  write_queries items w total
  = (w ++ concat (map (λ q, map (λ link, [Text q.1; Text link]) (sorted q.2) ++ [[]])
                    items),
     total + sum_list_with (λ q, size q.2) items).
Proof.
  induction items as [|[title links] items IH]; intros w total; simpl.
  - by rewrite app_nil_r, Nat.add_0_r.
  - rewrite IH, write_links_rows. unfold writerow. f_equal.
    + by rewrite <- !app_assoc.
    + lia.
Qed.

Lemma sorted_spec (links : gset string) :
  StronglySorted String.le (sorted links)
  ∧ sorted links ≡ₚ elements links
  ∧ NoDup (sorted links)
  ∧ length (sorted links) = size links
  ∧ ∀ link, link ∈ sorted links ↔ link ∈ links.
Proof.
  unfold sorted.
  pose proof (merge_sort_Permutation String.le (elements links)) as Hperm.
  split; [apply StronglySorted_merge_sort; apply _|].
  split; [done|].
  split; [rewrite Hperm; apply NoDup_elements|].
  split; [by rewrite Hperm|].
  intros link. by rewrite Hperm, elem_of_elements.
Qed.
End FileHandlerFacts.


Example save_results_two_queries :
  FileHandler.save_results "Tue Nov  3 10:30:00 2026"
    [("B", {["http://b.gov/z.pdf"; "http://b.gov/a.pdf"]}); ("A", ∅)]
  = [[FileHandler.Text "Search Performed On"; FileHandler.Text "Tue Nov  3 10:30:00 2026"];
     [];
     [FileHandler.Text "Query"; FileHandler.Text "PDF Link"];
     [FileHandler.Text "B"; FileHandler.Text "http://b.gov/a.pdf"];
     [FileHandler.Text "B"; FileHandler.Text "http://b.gov/z.pdf"];
     [];
     [];
     [FileHandler.Text "Total PDFs Found"; FileHandler.Number 2]].
Proof. vm_compute. reflexivity. Qed.

(** ** The application *)
Section ApplicationFacts.
Import SearchApplication.


(** [cut] returns the text around the first separator. *)
Lemma cut_spec (c : ascii) (s l r : string) :
  Str.cut c s = Some (l, r) →
  s = l +:+ String c r ∧ Str.find c l = None.
Proof.
  revert l. induction s as [|a s IH]; intros l; simpl; [done|].
  destruct (Ascii.eqb a c) eqn:Hac.
  - intros [= <- <-]. apply Ascii.eqb_eq in Hac as ->. done.
  - destruct (Str.cut c s) as [[l' r']|]; [|done].
    intros [= <- <-]. destruct (IH l' eq_refl) as [-> Hl]. simpl.
    rewrite Hac, Hl. done.
Qed.






Variable netloc_of : string → option string.
Variable urljoin : string → string → option string.
Variable http_head : string → PDFSearcher.head_result.
Variable http_get : string → PDFSearcher.get_result.
Variable search : string → nat → option (list string).

Lemma searched_hops (seeds : list string) (new : list PDFSearcher.event) :
  Forall (λ e, ∃ u, u ∈ seeds ∧ PDFSearcher.hop u e) new → searched new = [].
Proof.
  induction 1 as [|e new (u & _ & He) _ IH]; [done|].
  by destruct He as [->|[->|[v ->]]].
Qed.

Lemma searched_app (tr1 tr2 : list PDFSearcher.event) :
  searched (tr1 ++ tr2) = searched tr1 ++ searched tr2.
Proof. apply omap_app. Qed.

(** The search collaborator is called once per query, in the order of the
    query map. *)
Lemma search_all_searched cfg queries : ∀ st results,
  searched (PDFSearcher.trace
              (search_all netloc_of urljoin http_head http_get search
                 cfg queries st results).1)
  = searched (PDFSearcher.trace st) ++ queries.*2.
Proof.
  induction queries as [|[title query] queries IH]; intros st results; simpl.
  - by rewrite app_nil_r.
  - destruct (find_pdf_links_trace netloc_of urljoin http_head http_get search
                cfg query st) as (new & Hnew & Hall).
    destruct (PDFSearcher.find_pdf_links _ _ _ _ _ _ _ _) as [st' links].
    simpl in *. rewrite IH, Hnew, searched_app.
    change (searched (PDFSearcher.Search query :: new)) with (query :: searched new).
    rewrite (searched_hops _ _ Hall). by rewrite <- app_assoc.
Qed.

(** A run whose queries parse searches exactly those queries and then
    writes the file. *)
Lemma run_searches_queries timestamp ctime args queries :
  _get_queries args = inl queries →
  searched (run netloc_of urljoin http_head http_get search timestamp ctime args).1
  = queries.*2
  ∧ ∃ filename rows,
      (run netloc_of urljoin http_head http_get search timestamp ctime args).2
      = Finished filename rows.
Proof.
  intros Hq. unfold run, _perform_searches. rewrite Hq.
  pose proof (search_all_searched default_config queries PDFSearcher.init [])
    as Hs.
  destruct (search_all _ _ _ _ _ _ _ _ _) as [st results]. simpl in *.
  split; [exact Hs|]. by eexists _, _.
Qed.

End ApplicationFacts.




(** C10.  Without [-q], or with [-q] and no values, the query map is the
    three built-in pairs and the run hands exactly their three query texts,
    in order, to the search collaborator. *)
Theorem no_queries_runs_the_three_defaults
    (netloc_of : string → option string)
    (urljoin : string → string → option string)
    (http_head : string → PDFSearcher.head_result)
    (http_get : string → PDFSearcher.get_result)
    (search : string → nat → option (list string))
    (timestamp ctime : string)
    (args : SearchApplication.Namespace) :
  SearchApplication.queries args = None ∨ SearchApplication.queries args = Some [] →
  SearchApplication._get_queries args = inl SearchApplication.DEFAULT_QUERIES
  ∧ length SearchApplication.DEFAULT_QUERIES = 3
  ∧ SearchApplication.searched
      (SearchApplication.run netloc_of urljoin http_head http_get search
         timestamp ctime args).1
    = ["DoD budget FY 2024 spending cur filetype:pdf site:*.gov -inurl:(signup | login)";
       "DoD budget FY 2025 spending cur filetype:pdf site:*.gov -inurl:(signup | login)";
       "DoD vendor spending FY 2024 OR FY 2025 cur filetype:pdf site:*.gov -inurl:(signup | login)"]
  ∧ ∃ filename rows,
      (SearchApplication.run netloc_of urljoin http_head http_get search
         timestamp ctime args).2 = SearchApplication.Finished filename rows.
Proof.
  intros Hnone.
  assert (Hget : SearchApplication._get_queries args
                 = inl SearchApplication.DEFAULT_QUERIES).
  { unfold SearchApplication._get_queries. by destruct Hnone as [-> | ->]. }
  split; [exact Hget|]. split; [reflexivity|].
  exact (run_searches_queries netloc_of urljoin http_head http_get search
           timestamp ctime args _ Hget).
Qed.

Lemma no_queries_runs_the_three_defaults_witness :
  SearchApplication._get_queries (SearchApplication.mkArgs None false (Some []))
  = inl SearchApplication.DEFAULT_QUERIES
  ∧ length SearchApplication.DEFAULT_QUERIES = 3
  ∧ SearchApplication.searched
      (SearchApplication.run Url.netloc_of Url.urljoin Scenario.site_head
         Scenario.site_get Scenario.site_search "20261103_103000"
         "Tue Nov  3 10:30:00 2026"
         (SearchApplication.mkArgs None false (Some []))).1
    = ["DoD budget FY 2024 spending cur filetype:pdf site:*.gov -inurl:(signup | login)";
       "DoD budget FY 2025 spending cur filetype:pdf site:*.gov -inurl:(signup | login)";
       "DoD vendor spending FY 2024 OR FY 2025 cur filetype:pdf site:*.gov -inurl:(signup | login)"]
  ∧ ∃ filename rows,
      (SearchApplication.run Url.netloc_of Url.urljoin Scenario.site_head
         Scenario.site_get Scenario.site_search "20261103_103000"
         "Tue Nov  3 10:30:00 2026"
         (SearchApplication.mkArgs None false (Some []))).2
      = SearchApplication.Finished filename rows.
Proof.
  apply (no_queries_runs_the_three_defaults Url.netloc_of Url.urljoin
           Scenario.site_head Scenario.site_get Scenario.site_search
           "20261103_103000" "Tue Nov  3 10:30:00 2026"
           (SearchApplication.mkArgs None false (Some []))).
  right. reflexivity.
Defined.

(** * Further properties *)

(** ** Admissions under any schedule *)

Section Spacing.
Import RateLimiter.
Local Open Scope Q_scope.
Variable netloc_of : string → option string.
Variable sleep_error : Q → option exn.

Lemma throttle_later ceiling ct ts now now' :
  throttle sleep_error ceiling ct ts now = inl now' → now <= now'.
Proof.
  unfold throttle.
  destruct (int ceiling <=? Z.of_nat (length ts))%Z; [|intros [= <-]; lra].
  destruct ts as [|t0 ts]; [done|].
  destruct (Qlt_b 0 (1 - (ct - t0))) eqn:Hs; [|intros [= <-]; lra].
  unfold sleep. destruct (sleep_error _); [done|].
  destruct (Qlt_b (1 - (ct - t0)) 0); [done|]. intros [= <-].
  apply Qlt_b_true in Hs. lra.
Qed.

Lemma wait_keeps_spaced cfg st url released ct now :
  0 <= min_request_delay cfg →
  sleep_error (min_request_delay cfg) = None →
  spaced_inv (min_request_delay cfg) st released → released <= now →
  spaced_inv (min_request_delay cfg)
    (wait netloc_of sleep_error cfg st url ct now).1.1
    (wait netloc_of sleep_error cfg st url ct now).1.2.
Proof.
  intros Hd Hfit [Hs Hf] Hnow.
  assert (Hkeep : ∀ st' clock, admitted st' = admitted st → now <= clock →
            spaced_inv (min_request_delay cfg) st' clock).
  { intros st' clock Heq Hc. unfold spaced_inv, global_admitted. rewrite Heq.
    split; [done|]. eapply Forall_impl; [exact Hf|]. intros h Hh. simpl in Hh. lra. }
  unfold wait. destruct (netloc_of url) as [domain|]; simpl.
  2:{ apply Hkeep; [done|lra]. }
  set (g := prune ct (global_timestamps st)).
  set (dm := prune ct (domain_get st domain)).
  destruct (throttle sleep_error (requests_per_second cfg) ct g now)
    as [now1|e] eqn:H1; simpl; [|apply Hkeep; [done|lra]].
  apply throttle_later in H1.
  destruct (throttle sleep_error (domain_rate_limit cfg) ct dm now1)
    as [now2|e] eqn:H2; simpl; [|apply Hkeep; [done|lra]].
  apply throttle_later in H2.
  assert (Hadm : ∀ st' clock,
            admitted st' = admitted st ++ [(domain, now2)] →
            now2 + min_request_delay cfg <= clock →
            spaced_inv (min_request_delay cfg) st' clock).
  { intros st' clock Heq Hc. unfold spaced_inv, global_admitted.
    rewrite Heq, fmap_app. simpl. split.
    - apply StronglySorted_app. split; [|split; [done|repeat constructor]].
      intros a b Ha Hb. apply list_elem_of_singleton in Hb as ->.
      rewrite Forall_forall in Hf. specialize (Hf a Ha). simpl in Hf. lra.
    - apply Forall_app. split.
      + eapply Forall_impl; [exact Hf|]. intros h Hh. simpl in Hh. lra.
      + constructor; [done|constructor]. }
  unfold sleep. rewrite Hfit.
  destruct (Qlt_b (min_request_delay cfg) 0) eqn:Hneg; simpl.
  - apply Qlt_b_true in Hneg. lra.
  - apply Hadm; [done|lra].
Qed.

Lemma run_calls_keeps_spaced cfg calls : ∀ st released,
  0 <= min_request_delay cfg →
  sleep_error (min_request_delay cfg) = None →
  spaced_inv (min_request_delay cfg) st released →
  spaced_inv (min_request_delay cfg)
    (run_calls netloc_of sleep_error cfg st released calls).1
    (run_calls netloc_of sleep_error cfg st released calls).2.
Proof.
  induction calls as [|[url ct] calls IH]; intros st released Hd Hfit Hinv; simpl;
    [done|].
  set (now := if Qle_bool ct released then released else ct).
  assert (Hnow : released <= now).
  { unfold now. destruct (Qle_bool ct released) eqn:Hle; [lra|].
    destruct (Qlt_le_dec released ct) as [?|Hc]; [lra|].
    apply Qle_bool_iff in Hc. congruence. }
  pose proof (wait_keeps_spaced cfg st url released ct now Hd Hfit Hinv Hnow)
    as Hstep.
  destruct (wait netloc_of sleep_error cfg st url ct now) as [[st' released'] o].
  by apply IH.
Qed.

(** A list whose entries are [d] apart spans at least [d] per entry. *)
Lemma spaced_span d l : ∀ a z,
  StronglySorted (λ a b, a + d <= b) (a :: l) →
  last (a :: l) = Some z →
  a + inject_Z (Z.of_nat (length l)) * d <= z.
Proof.
  induction l as [|b l IH]; intros a z Hs Hz.
  - injection Hz as <-. change (inject_Z (Z.of_nat (length []))) with 0. lra.
  - apply StronglySorted_cons in Hs as [Hab Hs].
    apply Forall_cons in Hab as [Hab _].
    specialize (IH b z Hs Hz).
    change (length (b :: l)) with (S (length l)).
    rewrite Nat2Z.inj_succ, <- Z.add_1_r, inject_Z_plus.
    change (inject_Z 1) with 1. simpl in Hab. lra.
Qed.

Lemma spaced_filter d (p : Q → bool) l :
  StronglySorted (λ a b, a + d <= b) l →
  StronglySorted (λ a b, a + d <= b) (List.filter p l).
Proof.
  induction 1 as [|a l Hs IH Ha]; simpl; [constructor|].
  destruct (p a); [|done]. constructor; [done|].
  rewrite Forall_forall in *. intros x Hx. apply Ha.
  apply list_elem_of_In. apply list_elem_of_In in Hx.
  by apply List.filter_In in Hx as [? _].
Qed.

Lemma spaced_window_count d (n : nat) t l :
  0 < d → 1 <= inject_Z (Z.of_nat n) * d →
  StronglySorted (λ a b, a + d <= b) l →
  (admitted_within t l ≤ n)%nat.
Proof.
  intros Hd Hn Hs. unfold admitted_within.
  pose proof (spaced_filter d (in_window t) l Hs) as Hw.
  assert (Hin : Forall (λ h, h <= t ∧ t - h < 1) (List.filter (in_window t) l)).
  { apply Forall_forall. intros h Hh. apply list_elem_of_In in Hh.
    apply List.filter_In in Hh as [_ Hh]. by apply in_window_true in Hh. }
  destruct (List.filter (in_window t) l) as [|a w]; [simpl; lia|].
  assert (is_Some (last (a :: w))) as [z Hz] by (by apply last_is_Some).
  pose proof (spaced_span d w a z Hw Hz) as Hspan.
  assert (Hz' : z ∈ a :: w) by (by apply last_Some_elem_of).
  rewrite Forall_forall in Hin.
  destruct (Hin z Hz') as [Hzt _]. destruct (Hin a ltac:(by left)) as [_ Ha].
  assert (Hlt : inject_Z (Z.of_nat (length w)) * d < inject_Z (Z.of_nat n) * d)
    by lra.
  apply Qmult_lt_r in Hlt; [|done].
  rewrite <- Zlt_Qlt in Hlt. simpl. lia.
Qed.
End Spacing.

(** X2.  Under any schedule of calls, stale clock readings included, and
    with a minimum delay that is not negative and that [time.sleep] accepts,
    the admissions of [RateLimiter.wait] are recorded in ascending order and
    any two successive ones are at least [min_request_delay] apart: the lock
    is held through the closing sleep. *)
Theorem admissions_are_spaced_under_any_schedule
    (netloc_of : string → option string) (sleep_error : Q → option exn)
    (cfg : Config) (calls : list (string * Q)) (start : Q) :
  (0 <= min_request_delay cfg)%Q →
  sleep_error (min_request_delay cfg) = None →
  let st := (RateLimiter.run_calls netloc_of sleep_error cfg
               RateLimiter.init start calls).1 in
  StronglySorted (λ a b, a + min_request_delay cfg <= b)%Q
    (RateLimiter.global_admitted st).
Proof.
  intros Hd Hfit st.
  apply (run_calls_keeps_spaced netloc_of sleep_error cfg calls
           RateLimiter.init start Hd Hfit).
  split; constructor.
Qed.

Lemma admissions_are_spaced_under_any_schedule_witness :
  let st := (RateLimiter.run_calls Url.netloc_of PyTime.sleep_error default_config
               RateLimiter.init 0 Scenario.stale_clock_calls).1 in
  StronglySorted (λ a b, a + min_request_delay default_config <= b)%Q
    (RateLimiter.global_admitted st).
Proof.
  apply (admissions_are_spaced_under_any_schedule Url.netloc_of PyTime.sleep_error
           default_config Scenario.stale_clock_calls 0).
  - vm_compute. discriminate.
  - vm_compute. reflexivity.
Defined.

(** X3.  Under any schedule of calls, with a minimum delay that
    [time.sleep] accepts, no one-second interval holds more than [n]
    admissions once [n] minimum delays make up a second; under [Config()]
    (delay 0.25) that is at most 4, whatever the ceilings. *)
Theorem any_schedule_admits_at_most_one_per_delay
    (netloc_of : string → option string) (sleep_error : Q → option exn)
    (cfg : Config) (calls : list (string * Q)) (start : Q) (n : nat) (t : Q) :
  (0 < min_request_delay cfg)%Q →
  sleep_error (min_request_delay cfg) = None →
  (1 <= inject_Z (Z.of_nat n) * min_request_delay cfg)%Q →
  let st := (RateLimiter.run_calls netloc_of sleep_error cfg
               RateLimiter.init start calls).1 in
  RateLimiter.admitted_within t (RateLimiter.global_admitted st) ≤ n.
Proof.
  intros Hd Hfit Hn st.
  apply (spaced_window_count (min_request_delay cfg)); [done|done|].
  apply (run_calls_keeps_spaced netloc_of sleep_error cfg calls
           RateLimiter.init start).
  - by apply Qlt_le_weak.
  - done.
  - split; constructor.
Qed.

Lemma any_schedule_admits_at_most_one_per_delay_witness :
  let st := (RateLimiter.run_calls Url.netloc_of PyTime.sleep_error default_config
               RateLimiter.init 0 Scenario.stale_clock_calls).1 in
  RateLimiter.admitted_within (241 # 100)
    (RateLimiter.global_admitted st) ≤ 4.
Proof.
  apply (any_schedule_admits_at_most_one_per_delay Url.netloc_of PyTime.sleep_error
           default_config Scenario.stale_clock_calls 0 4 (241 # 100)).
  - vm_compute. reflexivity.
  - vm_compute. reflexivity.
  - vm_compute. discriminate.
Defined.

Lemma ceiling_holds_when_calls_take_turns_witness :
  let st := (RateLimiter.run_in_turn Url.netloc_of PyTime.sleep_error default_config
               RateLimiter.init 0
               [("http://a.gov/p", 0%Q); ("http://a.gov/p", 0%Q);
                ("http://b.gov/p", (1 # 4)%Q)]).1 in
  (Z.of_nat (RateLimiter.admitted_within (3 # 2)
               (RateLimiter.global_admitted st))
   ≤ RateLimiter.int (requests_per_second default_config))%Z
  ∧ (Z.of_nat (RateLimiter.admitted_within (3 # 2)
                 (RateLimiter.domain_admitted "a.gov" st))
     ≤ RateLimiter.int (domain_rate_limit default_config))%Z.
Proof.
  intros st.
  destruct (ceiling_holds_when_calls_take_turns Url.netloc_of PyTime.sleep_error
              default_config
              [("http://a.gov/p", 0%Q); ("http://a.gov/p", 0%Q);
               ("http://b.gov/p", (1 # 4)%Q)] 0) with (t := (3 # 2)%Q)
    as [Hglobal Hhost].
  - vm_compute. discriminate.
  - vm_compute. discriminate.
  - repeat constructor; vm_compute; discriminate.
  - split; [exact Hglobal|exact (Hhost "a.gov")].
Defined.

(** ** What a query returns *)

Section QueryResults.
Import PDFSearcher.
Variable netloc_of : string → option string.
Variable urljoin : string → string → option string.
Variable http_head : string → head_result.
Variable http_get : string → get_result.
Variable search : string → nat → option (list string).

Local Abbreviation ok := (verified netloc_of http_head).

(** What a probe does to the output set. *)
Lemma check_links depth url st links v :
  v ∈ (_check_direct_pdf netloc_of http_head depth url st links).1.2
  ↔ v ∈ links ∨ v = url ∧ ok url.
Proof.
  unfold verified, head_is_pdf, _check_direct_pdf.
  destruct (rate_limiter_wait netloc_of url); simpl.
  2:{ split; [by left|]. by intros [?|(_ & [=] & _)]. }
  destruct (http_head url) as [r|e]; simpl.
  - destruct (_ && _); simpl.
    + rewrite elem_of_union, elem_of_singleton. split.
      * intros [->|?]; [right|by left]. done.
      * intros [?|[-> _]]; [by right|by left].
    + split; [by left|]. by intros [?|(_ & _ & [=])].
  - destruct e; simpl; (split; [by left|]); by intros [?|(_ & _ & [=])].
Qed.

Lemma check_all_links depth urls : ∀ st links v,
  v ∈ (check_all netloc_of http_head depth urls st links).2
  ↔ v ∈ links ∨ v ∈ urls ∧ ok v.
Proof.
  induction urls as [|u urls IH]; intros st links v; simpl.
  - split; [by left|]. intros [?|[Hin _]]; [done|]. by apply elem_of_nil in Hin.
  - pose proof (check_links depth u st links v) as Hu.
    destruct (_check_direct_pdf _ _ _ _ _ _) as [[st1 links1] o]. simpl in Hu.
    rewrite IH, Hu, elem_of_cons. split.
    + intros [[?|[-> ?]]|[? ?]]; [by left|right|right]; split; auto.
    + intros [?|[[->|?] ?]]; [left; by left|left; right|right]; auto.
Qed.

Lemma scrape_links depth url st links v :
  v ∈ (_scrape_page_for_pdfs netloc_of urljoin http_head http_get
         depth url st links).1.2
  ↔ v ∈ links
    ∨ ok v ∧ ∃ hrefs pdf_urls,
        page_hrefs netloc_of http_get url = Some hrefs
        ∧ pdf_urls_of urljoin url hrefs ∅ = Some pdf_urls
        ∧ v ∈ pdf_urls.
Proof.
  unfold _scrape_page_for_pdfs, page_hrefs.
  destruct (rate_limiter_wait netloc_of url); simpl.
  2:{ split; [by left|]. by intros [?|(_ & ? & ? & [=] & _)]. }
  destruct (http_get url) as [status hrefs|e]; simpl.
  2:{ destruct e; simpl; (split; [by left|]);
      by intros [?|(_ & ? & ? & [=] & _)]. }
  destruct (raise_for_status status); simpl.
  2:{ split; [by left|]. by intros [?|(_ & ? & ? & [=] & _)]. }
  destruct (pdf_urls_of urljoin url hrefs ∅) as [pdf_urls|] eqn:Hurls; simpl.
  2:{ split; [by left|].
      intros [?|(_ & h' & s' & [= <-] & Hs' & _)]; [done|congruence]. }
  pose proof (check_all_links (S depth) (elements pdf_urls)
                (log (Scrape depth url) st) links v) as Hall.
  destruct (check_all _ _ _ _ _ _) as [st' links']. simpl in *.
  rewrite Hall, elem_of_elements. split.
  - intros [?|[? ?]]; [by left|right]. split; [done|]. by exists hrefs, pdf_urls.
  - intros [?|(Hok & h' & s' & [= <-] & Hs' & Hv)]; [by left|].
    right. rewrite Hurls in Hs'. injection Hs' as <-. done.
Qed.

Lemma process_cache url st links :
  cache (_process_url netloc_of urljoin http_head http_get url st links).1.1
  = {[url]} ∪ cache st.
Proof.
  unfold _process_url.
  destruct (decide (url ∈ cache st)) as [Hin|Hout]; simpl.
  { apply set_eq. intros x. rewrite elem_of_union, elem_of_singleton.
    split; [by right|]. by intros [->|?]. }
  set (st0 := mkState ({[url]} ∪ cache st) (trace st)).
  destruct (rate_limiter_wait netloc_of url); simpl; [|done].
  destruct (Str.endswith url ".pdf").
  - destruct (check_trace netloc_of http_head 1 url st0 links) as [Hc _].
    by destruct (_check_direct_pdf _ _ _ _ _ _) as [[st' links'] o].
  - destruct (scrape_trace netloc_of urljoin http_head http_get 1 url st0 links)
      as [Hc _].
    by destruct (_scrape_page_for_pdfs _ _ _ _ _ _ _ _) as [[st' links'] o].
Qed.

Lemma process_links url st links v :
  v ∈ (_process_url netloc_of urljoin http_head http_get url st links).1.2
  ↔ v ∈ links
    ∨ (url ∉ cache st) ∧ yields netloc_of urljoin http_head http_get url v.
Proof.
  unfold _process_url, yields.
  destruct (decide (url ∈ cache st)) as [Hin|Hout]; simpl.
  { split; [by left|]. by intros [?|[? _]]. }
  set (st0 := mkState ({[url]} ∪ cache st) (trace st)).
  destruct (rate_limiter_wait netloc_of url) eqn:Hwait; simpl.
  2:{ split; [by left|]. intros [?|(_ & Hok & Hcase)]; [done|].
      destruct Hcase as [[_ ->]|(_ & hrefs & s & Hp & _)].
      - destruct Hok as [Hw _]. congruence.
      - unfold page_hrefs in Hp. by rewrite Hwait in Hp. }
  destruct (Str.endswith url ".pdf") eqn:Hpdf.
  - pose proof (check_links 1 url st0 links v) as Hc.
    destruct (_check_direct_pdf _ _ _ _ _ _) as [[st' links'] o]. simpl in *.
    rewrite Hc. split.
    + intros [?|[-> ?]]; [by left|right]. split; [done|]. split; [done|]. by left.
    + intros [?|(_ & Hok & [[_ ->]|[[=] _]])]; [by left|by right].
  - pose proof (scrape_links 1 url st0 links v) as Hs.
    destruct (_scrape_page_for_pdfs _ _ _ _ _ _ _ _) as [[st' links'] o].
    simpl in *. rewrite Hs. split.
    + intros [?|[? ?]]; [by left|right]. split; [done|]. split; [done|]. by right.
    + intros [?|(_ & Hok & [[[=] _]|[_ ?]])]; [by left|by right].
Qed.

(** The output of a batch of search results: the verified yields of those
    not in the cache before. *)
Lemma process_all_links urls : ∀ st links v,
  v ∈ (process_all netloc_of urljoin http_head http_get urls st links).2
  ↔ v ∈ links
    ∨ ∃ u, u ∈ urls ∧ (u ∉ cache st)
           ∧ yields netloc_of urljoin http_head http_get u v.
Proof.
  induction urls as [|u urls IH]; intros st links v; simpl.
  - split; [by left|]. intros [?|(u & Hin & _)]; [done|].
    by apply elem_of_nil in Hin.
  - pose proof (process_links u st links v) as Hl.
    pose proof (process_cache u st links) as Hc.
    destruct (_process_url _ _ _ _ _ _ _) as [[st1 links1] o]. simpl in *.
    rewrite IH, Hl, Hc. split.
    + intros [[?|[? ?]]|(u' & Hin & Hout & Hy)].
      * by left.
      * right. exists u. split; [by left|done].
      * right. exists u'. split; [by right|]. split; [|done].
        intros Hin'. apply Hout. by apply elem_of_union_r.
    + intros [?|(u' & Hin & Hout & Hy)]; [left; by left|].
      destruct (decide (u' = u)) as [->|Hne]; [left; right; done|].
      apply elem_of_cons in Hin as [->|Hin]; [done|].
      right. exists u'. split; [done|]. split; [|done].
      rewrite elem_of_union, elem_of_singleton. by intros [?|?].
Qed.

Lemma process_all_cache urls : ∀ st links,
  cache (process_all netloc_of urljoin http_head http_get urls st links).1
  = list_to_set urls ∪ cache st.
Proof.
  induction urls as [|u urls IH]; intros st links; simpl.
  - apply set_eq. intros x. rewrite elem_of_union. split; [by right|].
    intros [Hx|?]; [|done]. by apply not_elem_of_empty in Hx.
  - pose proof (process_cache u st links) as Hc.
    destruct (_process_url _ _ _ _ _ _ _) as [[st1 links1] o]. simpl in *.
    rewrite IH, Hc. apply set_eq. intros x.
    rewrite !elem_of_union, elem_of_singleton. tauto.
Qed.
End QueryResults.

Section QueryResults2.
Import PDFSearcher.
Variable netloc_of : string → option string.
Variable urljoin : string → string → option string.
Variable http_head : string → head_result.
Variable http_get : string → get_result.
Variable search : string → nat → option (list string).

(** Search results that are all in the cache change nothing. *)
Lemma process_all_seen urls : ∀ st links,
  (∀ u, u ∈ urls → u ∈ cache st) →
  process_all netloc_of urljoin http_head http_get urls st links = (st, links).
Proof.
  induction urls as [|u urls IH]; intros st links Hseen; simpl; [done|].
  unfold _process_url.
  destruct (decide (u ∈ cache st)) as [Hin|Hout].
  - apply IH. intros u' Hu'. apply Hseen. by right.
  - exfalso. apply Hout, Hseen. by left.
Qed.

Lemma find_pdf_links_links cfg query st v :
  v ∈ (find_pdf_links netloc_of urljoin http_head http_get search cfg query st).2
  ↔ ∃ u, u ∈ default [] (search query (search_results_limit cfg))
         ∧ (u ∉ cache st)
         ∧ yields netloc_of urljoin http_head http_get u v.
Proof.
  unfold find_pdf_links.
  destruct (search query (search_results_limit cfg)) as [seeds|]; simpl.
  - rewrite process_all_links. simpl. split; [|by right].
    intros [Hv|?]; [|done]. by apply not_elem_of_empty in Hv.
  - split; [intros Hv; by apply not_elem_of_empty in Hv|].
    intros (u & Hu & _). by apply elem_of_nil in Hu.
Qed.

Lemma find_pdf_links_cache cfg query st :
  cache (find_pdf_links netloc_of urljoin http_head http_get search cfg query st).1
  = list_to_set (default [] (search query (search_results_limit cfg))) ∪ cache st.
Proof.
  unfold find_pdf_links.
  destruct (search query (search_results_limit cfg)) as [seeds|]; simpl.
  - by rewrite process_all_cache.
  - apply set_eq. intros x. rewrite elem_of_union. split; [by right|].
    intros [Hx|?]; [|done]. by apply not_elem_of_empty in Hx.
Qed.

Lemma find_pdf_links_seen cfg query st :
  (∀ u, u ∈ default [] (search query (search_results_limit cfg)) → u ∈ cache st) →
  find_pdf_links netloc_of urljoin http_head http_get search cfg query st
  = (log (Search query) st, ∅).
Proof.
  intros Hseen. unfold find_pdf_links.
  destruct (search query (search_results_limit cfg)) as [seeds|]; simpl in *;
    [|done].
  by apply process_all_seen.
Qed.
End QueryResults2.

(** X4.  Every address that [find_pdf_links] returns was let through by
    the limiter and answered its HEAD with status 200 and a [Content-Type]
    containing [application/pdf]. *)
Theorem query_results_are_verified
    (netloc_of : string → option string)
    (urljoin : string → string → option string)
    (http_head : string → PDFSearcher.head_result)
    (http_get : string → PDFSearcher.get_result)
    (search : string → nat → option (list string))
    (cfg : Config) (query : string) (st : PDFSearcher.state) (v : string) :
  v ∈ (PDFSearcher.find_pdf_links netloc_of urljoin http_head http_get search
         cfg query st).2 →
  is_Some (netloc_of v)
  ∧ ∃ response,
      http_head v = PDFSearcher.HeadResponse response
      ∧ PDFSearcher.status_code response = 200%Z
      ∧ Str.contains "application/pdf"
          (PDFSearcher.headers_get (PDFSearcher.headers response)
             "Content-Type" "") = true.
Proof.
  intros Hv. apply find_pdf_links_links in Hv as (u & _ & _ & [Hw Hhead] & _).
  split.
  - unfold PDFSearcher.rate_limiter_wait in Hw.
    destruct (netloc_of v); [by eexists|done].
  - unfold PDFSearcher.head_is_pdf in Hhead.
    destruct (http_head v) as [response|]; [|done].
    apply andb_true_iff in Hhead as [Hs Hc]. apply Z.eqb_eq in Hs.
    by exists response.
Qed.

Lemma query_results_are_verified_witness :
  is_Some (Url.netloc_of Scenario.budget_pdf)
  ∧ ∃ response,
      Scenario.site_head Scenario.budget_pdf = PDFSearcher.HeadResponse response
      ∧ PDFSearcher.status_code response = 200%Z
      ∧ Str.contains "application/pdf"
          (PDFSearcher.headers_get (PDFSearcher.headers response)
             "Content-Type" "") = true.
Proof.
  apply (query_results_are_verified Url.netloc_of Url.urljoin Scenario.site_head
           Scenario.site_get Scenario.site_search default_config "budget"
           PDFSearcher.init Scenario.budget_pdf).
  apply (bool_decide_unpack _). vm_compute. exact I.
Defined.

(** X5.  Every address that [find_pdf_links] returns stems from a search
    result of that query that was not in the cache before: it is that search
    result itself (ending with [.pdf]), or a link on its fetched page whose
    [href] ends with [.pdf], resolved against it. *)
Theorem query_results_come_from_search_results
    (netloc_of : string → option string)
    (urljoin : string → string → option string)
    (http_head : string → PDFSearcher.head_result)
    (http_get : string → PDFSearcher.get_result)
    (search : string → nat → option (list string))
    (cfg : Config) (query : string) (st : PDFSearcher.state) (v : string) :
  v ∈ (PDFSearcher.find_pdf_links netloc_of urljoin http_head http_get search
         cfg query st).2 →
  ∃ u, u ∈ default [] (search query (search_results_limit cfg))
    ∧ (u ∉ PDFSearcher.cache st)
    ∧ (Str.endswith u ".pdf" = true ∧ v = u
       ∨ Str.endswith u ".pdf" = false
         ∧ ∃ hrefs href,
             PDFSearcher.page_hrefs netloc_of http_get u = Some hrefs
             ∧ href ∈ hrefs ∧ Str.endswith href ".pdf" = true
             ∧ urljoin u href = Some v).
Proof.
  intros Hv. apply find_pdf_links_links in Hv as (u & Hu & Hout & _ & Hcase).
  exists u. split; [done|]. split; [done|].
  destruct Hcase as [?|(Hpdf & hrefs & s & Hp & Hs & Hin)]; [by left|right].
  split; [done|].
  apply (pdf_urls_of_elem urljoin u hrefs ∅ s Hs) in Hin
    as [Hin|(href & Hh & He & Hj)]; [by apply not_elem_of_empty in Hin|].
  by exists hrefs, href.
Qed.

Lemma query_results_come_from_search_results_witness :
  ∃ u, u ∈ default [] (Scenario.site_search "budget"
                         (search_results_limit default_config))
    ∧ (u ∉ PDFSearcher.cache PDFSearcher.init)
    ∧ (Str.endswith u ".pdf" = true ∧ Scenario.budget_pdf = u
       ∨ Str.endswith u ".pdf" = false
         ∧ ∃ hrefs href,
             PDFSearcher.page_hrefs Url.netloc_of Scenario.site_get u = Some hrefs
             ∧ href ∈ hrefs ∧ Str.endswith href ".pdf" = true
             ∧ Url.urljoin u href = Some Scenario.budget_pdf).
Proof.
  apply (query_results_come_from_search_results Url.netloc_of Url.urljoin
           Scenario.site_head Scenario.site_get Scenario.site_search
           default_config "budget" PDFSearcher.init Scenario.budget_pdf).
  apply (bool_decide_unpack _). vm_compute. exact I.
Defined.

(** X9.  A query whose search results are all in the visited cache
    returns the empty set, issues no request and leaves the cache as it
    was. *)
Theorem seen_search_results_contribute_nothing
    (netloc_of : string → option string)
    (urljoin : string → string → option string)
    (http_head : string → PDFSearcher.head_result)
    (http_get : string → PDFSearcher.get_result)
    (search : string → nat → option (list string))
    (cfg : Config) (query : string) (st : PDFSearcher.state) :
  (∀ u, u ∈ default [] (search query (search_results_limit cfg)) →
        u ∈ PDFSearcher.cache st) →
  let r := PDFSearcher.find_pdf_links netloc_of urljoin http_head http_get search
             cfg query st in
  r.2 = ∅
  ∧ PDFSearcher.trace r.1 = PDFSearcher.trace st ++ [PDFSearcher.Search query]
  ∧ PDFSearcher.cache r.1 = PDFSearcher.cache st.
Proof.
  intros Hseen r. unfold r. by rewrite find_pdf_links_seen.
Qed.

Lemma seen_search_results_contribute_nothing_witness :
  let st := PDFSearcher.mkState {[Scenario.budget_pdf; Scenario.index_page]} [] in
  let r := PDFSearcher.find_pdf_links Url.netloc_of Url.urljoin Scenario.site_head
             Scenario.site_get Scenario.site_search default_config "budget" st in
  r.2 = ∅
  ∧ PDFSearcher.trace r.1 = PDFSearcher.trace st ++ [PDFSearcher.Search "budget"]
  ∧ PDFSearcher.cache r.1 = PDFSearcher.cache st.
Proof.
  apply (seen_search_results_contribute_nothing Url.netloc_of Url.urljoin
           Scenario.site_head Scenario.site_get Scenario.site_search
           default_config "budget"
           (PDFSearcher.mkState {[Scenario.budget_pdf; Scenario.index_page]} [])).
  intros u Hu. simpl in *.
  apply elem_of_cons in Hu as [->|Hu]; [apply elem_of_union_l; by apply elem_of_singleton|].
  apply elem_of_cons in Hu as [->|Hu]; [apply elem_of_union_r; by apply elem_of_singleton|].
  by apply elem_of_nil in Hu.
Defined.

(** ** The rows of the file *)

Section FileRows.
Import FileHandler.

(** The rows of one query block. *)
Local Abbreviation block q :=
  (map (λ link, [Text q.1; Text link]) (sorted q.2) ++ [[]]).

Lemma save_results_data ctime rs :
  drop 3 (save_results ctime rs)
  = concat (map (λ q, block q) rs)
    ++ [[Text "Total PDFs Found"; Number (sum_list_with (λ q, size q.2) rs)]].
Proof.
  unfold save_results. rewrite write_queries_rows. unfold writerow. simpl.
  by rewrite drop_0.
Qed.




Lemma elem_of_blocks rs t l :
  [Text t; Text l] ∈ concat (map (λ q, block q) rs)
  ↔ ∃ links, (t, links) ∈ rs ∧ l ∈ links.
Proof.
  induction rs as [|[t0 links0] rs IH].
  - simpl. split; [intros H; by apply elem_of_nil in H|].
    intros (links & H & _). by apply elem_of_nil in H.
  - rewrite map_cons, concat_cons, !elem_of_app, IH. simpl. split.
    + intros [[Hrow|Hblank]|(links & Hin & Hl)].
      * apply list_elem_of_fmap in Hrow as (l' & [= -> ->] & Hl').
        exists links0. split; [by left|].
        by apply (sorted_spec links0).
      * apply list_elem_of_singleton in Hblank. discriminate.
      * exists links. split; [by right|done].
    + intros (links & Hin & Hl).
      apply elem_of_cons in Hin as [[= -> ->]|Hin].
      * left; left. apply list_elem_of_fmap. exists l. split; [done|].
        by apply (sorted_spec links0).
      * right. by exists links.
Qed.

Lemma elem_of_blocks_rows ctime rs t l :
  [Text t; Text l] ∈ drop 3 (save_results ctime rs)
  ↔ ∃ links, (t, links) ∈ rs ∧ l ∈ links.
Proof.
  rewrite save_results_data, elem_of_app, elem_of_blocks. split.
  - intros [?|Htotal]; [done|].
    apply list_elem_of_singleton in Htotal. discriminate.
  - by left.
Qed.
End FileRows.



(** ** The query map *)

Section QueryMap.
Import SearchApplication.

Lemma dict_set_fresh {V} (k : string) (v : V) (d : list (string * V)) :
  k ∉ d.*1 → Dict.set k v d = d ++ [(k, v)].
Proof.
  induction d as [|[k0 v0] d IH]; simpl; [done|]. intros Hk.
  destruct (String.eqb k0 k) eqn:He.
  - apply String.eqb_eq in He as ->. exfalso. apply Hk. by left.
  - rewrite IH; [done|]. intros Hin. apply Hk. by right.
Qed.

Lemma dict_set_keys {V} (k : string) (v : V) (d : list (string * V)) :
  (Dict.set k v d).*1 = d.*1 ∨ (k ∉ d.*1) ∧ (Dict.set k v d).*1 = d.*1 ++ [k].
Proof.
  induction d as [|[k0 v0] d IH]; cbn [Dict.set].
  - right. split; [apply not_elem_of_nil|done].
  - destruct (String.eqb k0 k) eqn:He; rewrite !fmap_cons; cbn [fst];
      [by left|].
    destruct IH as [IH|[Hk IH]]; rewrite IH; [by left|right]. split; [|done].
    intros Hin. apply elem_of_cons in Hin as [->|Hin]; [|done].
    by rewrite String.eqb_refl in He.
Qed.

Lemma dict_set_nodup {V} (k : string) (v : V) (d : list (string * V)) :
  NoDup d.*1 → NoDup (Dict.set k v d).*1.
Proof.
  intros Hd. destruct (dict_set_keys k v d) as [->|[Hk ->]]; [done|].
  apply NoDup_app. split; [done|]. split; [|apply NoDup_singleton].
  intros x Hx Hxk. apply list_elem_of_singleton in Hxk as ->. done.
Qed.

Lemma dict_set_elem {V} (k : string) (v : V) (d : list (string * V)) p :
  p ∈ Dict.set k v d → p = (k, v) ∨ p ∈ d.
Proof.
  induction d as [|[k0 v0] d IH]; simpl.
  - intros Hp. apply list_elem_of_singleton in Hp. by left.
  - destruct (String.eqb k0 k) eqn:He.
    + apply String.eqb_eq in He as ->.
      intros Hp. apply elem_of_cons in Hp as [->|Hp]; [by left|right; by right].
    + intros Hp. apply elem_of_cons in Hp as [->|Hp]; [right; by left|].
      destruct (IH Hp) as [?|?]; [by left|right; by right].
Qed.

Lemma dict_set_length {V} (k : string) (v : V) (d : list (string * V)) :
  length d ≤ length (Dict.set k v d) ∧ 1 ≤ length (Dict.set k v d).
Proof.
  induction d as [|[k0 v0] d IH]; simpl; [lia|].
  destruct (String.eqb k0 k); simpl; lia.
Qed.

(** What the loop of [_get_queries] keeps of its accumulator and what it
    adds to it. *)
Lemma parse_queries_map qs : ∀ acc m,
  parse_queries qs acc = inl m →
  (NoDup acc.*1 → NoDup m.*1)
  ∧ length acc ≤ length m
  ∧ (qs ≠ [] → 1 ≤ length m)
  ∧ ∀ p, p ∈ m →
      p ∈ acc
      ∨ ∃ q title text,
          q ∈ qs ∧ Str.cut ":" q = Some (title, text)
          ∧ p = (Str.strip title, Str.strip text).
Proof.
  induction qs as [|q qs IH]; intros acc m; simpl.
  - intros [= <-]. split; [done|]. split; [done|]. split; [done|]. by left.
  - unfold Str.split1.
    destruct (Str.cut ":" q) as [[title text]|] eqn:Hcut; [|done].
    intros Hm. destruct (IH _ _ Hm) as (Hnd & Hlen & _ & Hfrom).
    pose proof (dict_set_length (Str.strip title) (Str.strip text) acc) as [Hl1 Hl2].
    split; [intros Hacc; by apply Hnd, dict_set_nodup|].
    split; [lia|]. split; [lia|].
    intros p Hp. destruct (Hfrom p Hp) as [Hset|(q' & t' & x' & Hq' & Hc' & ->)].
    + apply dict_set_elem in Hset as [->|?]; [right|by left].
      exists q, title, text. split; [by left|done].
    + right. exists q', t', x'. split; [by right|done].
Qed.

Lemma get_queries_map args m :
  _get_queries args = inl m → NoDup m.*1 ∧ 1 ≤ length m.
Proof.
  unfold _get_queries.
  assert (Hdefault : NoDup DEFAULT_QUERIES.*1 ∧ 1 ≤ length DEFAULT_QUERIES).
  { split; [|simpl; lia]. apply (bool_decide_unpack _). by vm_compute. }
  destruct (queries args) as [[|q qs]|]; [by intros [= <-]| |by intros [= <-]].
  intros Hm. destruct (parse_queries_map _ _ _ Hm) as (Hnd & _ & Hlen & _).
  split; [apply Hnd; constructor|by apply Hlen].
Qed.
End QueryMap.

(** X14.  Whenever [_get_queries] returns, the query map is not empty and
    its titles are pairwise distinct, so the pool width
    [min(len(queries), max_workers)] of [_perform_searches] is at least 1. *)
Theorem query_map_is_never_empty (args : SearchApplication.Namespace)
    (m : list (string * string)) :
  SearchApplication._get_queries args = inl m →
  m ≠ [] ∧ NoDup m.*1
  ∧ 1 ≤ length m `min` max_workers default_config.
Proof.
  intros Hm. destruct (get_queries_map args m Hm) as [Hnd Hlen].
  split; [intros ->; simpl in Hlen; lia|]. split; [done|].
  change (max_workers default_config) with 8. lia.
Qed.

Lemma query_map_is_never_empty_witness :
  [("Budget", "FY 2025")] ≠ [] ∧ NoDup [("Budget", "FY 2025")].*1
  ∧ 1 ≤ length [("Budget", "FY 2025")] `min` max_workers default_config.
Proof.
  apply (query_map_is_never_empty
           (SearchApplication.mkArgs None false
              (Some ["Budget:FY 2024"; "Budget:FY 2025"]))).
  reflexivity.
Defined.

(** X15.  Every entry of a query map parsed from [-q] values comes from
    one of the values, cut at its first colon (the title part has no
    colon), with both parts stripped. *)
Theorem query_map_entries_come_from_arguments
    (args : SearchApplication.Namespace) (qs : list string)
    (m : list (string * string)) (title text : string) :
  SearchApplication.queries args = Some qs →
  qs ≠ [] →
  SearchApplication._get_queries args = inl m →
  (title, text) ∈ m →
  ∃ q before after,
    q ∈ qs ∧ q = before +:+ String ":" after
    ∧ Str.find ":" before = None
    ∧ title = Str.strip before ∧ text = Str.strip after.
Proof.
  intros Hqs Hne Hm Hin. unfold SearchApplication._get_queries in Hm.
  rewrite Hqs in Hm. destruct qs as [|q0 qs]; [done|].
  destruct (parse_queries_map _ _ _ Hm) as (_ & _ & _ & Hfrom).
  destruct (Hfrom _ Hin) as [Hnil|(q & before & after & Hq & Hcut & [= -> ->])].
  { by apply elem_of_nil in Hnil. }
  destruct (cut_spec ":" q before after Hcut) as [-> Hfind].
  by exists (before +:+ String ":" after), before, after.
Qed.

Lemma query_map_entries_come_from_arguments_witness :
  ∃ q before after,
    q ∈ [" Budget : dod: budget "] ∧ q = before +:+ String ":" after
    ∧ Str.find ":" before = None
    ∧ "Budget" = Str.strip before ∧ "dod: budget" = Str.strip after.
Proof.
  apply (query_map_entries_come_from_arguments
           (SearchApplication.mkArgs None false (Some [" Budget : dod: budget "]))
           [" Budget : dod: budget "] [("Budget", "dod: budget")]).
  - reflexivity.
  - discriminate.
  - reflexivity.
  - by left.
Defined.

(** ** The run *)

Section RunResults.
Import SearchApplication.
Variable netloc_of : string → option string.
Variable urljoin : string → string → option string.
Variable http_head : string → PDFSearcher.head_result.
Variable http_get : string → PDFSearcher.get_result.
Variable search : string → nat → option (list string).

Local Abbreviation search_all' :=
  (search_all netloc_of urljoin http_head http_get search).

(** With distinct titles every query gets a result slot of its own, in
    submission order. *)
Lemma search_all_keys cfg queries : ∀ st acc,
  NoDup (acc.*1 ++ queries.*1) →
  (search_all' cfg queries st acc).2.*1 = acc.*1 ++ queries.*1.
Proof.
  induction queries as [|[title query] queries IH]; intros st acc Hnd; simpl.
  - by rewrite app_nil_r.
  - destruct (PDFSearcher.find_pdf_links _ _ _ _ _ _ _ _) as [st' links].
    simpl in Hnd.
    assert (Hfresh : title ∉ acc.*1).
    { apply NoDup_app in Hnd as (_ & Hdisj & _). intros Hin.
      apply (Hdisj title Hin). by left. }
    rewrite dict_set_fresh by done.
    rewrite IH; rewrite fmap_app; simpl; rewrite <- app_assoc; done.
Qed.

(** Every link in a result slot is one that [find_pdf_links] returned for a
    query of the map, hence verified. *)
Lemma search_all_values cfg queries : ∀ st acc title links v,
  (title, links) ∈ (search_all' cfg queries st acc).2 →
  v ∈ links →
  (∃ links0, (title, links0) ∈ acc ∧ v ∈ links0)
  ∨ title ∈ queries.*1 ∧ PDFSearcher.verified netloc_of http_head v.
Proof.
  induction queries as [|[t q] queries IH]; intros st acc title links v; simpl.
  - intros Hin Hv. left. by exists links.
  - pose proof (find_pdf_links_links netloc_of urljoin http_head http_get search
                  cfg q st) as Hfind.
    destruct (PDFSearcher.find_pdf_links _ _ _ _ _ _ _ _) as [st' links'].
    simpl in Hfind. intros Hin Hv.
    destruct (IH _ _ _ _ _ Hin Hv) as [(links0 & Hset & Hv0)|[Ht Hok]].
    + apply dict_set_elem in Hset as [[= -> ->]|Hacc].
      * right. split; [by left|].
        apply Hfind in Hv0 as (u & _ & _ & Hok & _). done.
      * left. by exists links0.
    + right. split; [by right|done].
Qed.
End RunResults.

(** X16.  [_perform_searches] returns one result slot per title of the
    query map, in the order of the map, also for queries whose search
    failed. *)
Theorem one_result_slot_per_query_title
    (netloc_of : string → option string)
    (urljoin : string → string → option string)
    (http_head : string → PDFSearcher.head_result)
    (http_get : string → PDFSearcher.get_result)
    (search : string → nat → option (list string))
    (cfg : Config) (args : SearchApplication.Namespace)
    (st : PDFSearcher.state) (m : list (string * string)) :
  SearchApplication._get_queries args = inl m →
  ∃ search_results,
    (SearchApplication._perform_searches netloc_of urljoin http_head http_get
       search cfg args st).2 = inl search_results
    ∧ search_results.*1 = m.*1.
Proof.
  intros Hm. unfold SearchApplication._perform_searches. rewrite Hm.
  destruct (get_queries_map args m Hm) as [Hnd _].
  pose proof (search_all_keys netloc_of urljoin http_head http_get search
                cfg m st [] Hnd) as Hkeys.
  destruct (SearchApplication.search_all _ _ _ _ _ _ _ _ _) as [st' results].
  by exists results.
Qed.

Lemma one_result_slot_per_query_title_witness :
  ∃ search_results,
    (SearchApplication._perform_searches Url.netloc_of Url.urljoin
       Scenario.site_head Scenario.site_get (λ _ _, None) default_config
       (SearchApplication.mkArgs None false None) PDFSearcher.init).2
    = inl search_results
    ∧ search_results.*1 = SearchApplication.DEFAULT_QUERIES.*1.
Proof.
  apply (one_result_slot_per_query_title Url.netloc_of Url.urljoin
           Scenario.site_head Scenario.site_get (λ _ _, None) default_config
           (SearchApplication.mkArgs None false None) PDFSearcher.init).
  reflexivity.
Defined.

(** X17.  In a finished run, every title/link row of the written file
    carries a title of the query map and a link that answered its HEAD with
    status 200 and a [Content-Type] containing [application/pdf]. *)
Theorem written_links_are_verified
    (netloc_of : string → option string)
    (urljoin : string → string → option string)
    (http_head : string → PDFSearcher.head_result)
    (http_get : string → PDFSearcher.get_result)
    (search : string → nat → option (list string))
    (timestamp ctime : string) (args : SearchApplication.Namespace)
    (filename : string) (rows : list FileHandler.row) (title link : string) :
  (SearchApplication.run netloc_of urljoin http_head http_get search
     timestamp ctime args).2 = SearchApplication.Finished filename rows →
  [FileHandler.Text title; FileHandler.Text link] ∈ drop 3 rows →
  (∃ m query, SearchApplication._get_queries args = inl m ∧ (title, query) ∈ m)
  ∧ is_Some (netloc_of link)
  ∧ ∃ response,
      http_head link = PDFSearcher.HeadResponse response
      ∧ PDFSearcher.status_code response = 200%Z
      ∧ Str.contains "application/pdf"
          (PDFSearcher.headers_get (PDFSearcher.headers response)
             "Content-Type" "") = true.
Proof.
  unfold SearchApplication.run, SearchApplication._perform_searches,
    SearchApplication._save_results.
  destruct (SearchApplication._get_queries args) as [m|e] eqn:Hm; [|done].
  pose proof (search_all_values netloc_of urljoin http_head http_get search
                default_config m PDFSearcher.init []) as Hvals.
  destruct (SearchApplication.search_all _ _ _ _ _ _ _ _ _) as [st' results].
  simpl in *. intros [= _ <-] Hrow.
  apply elem_of_blocks_rows in Hrow as (links & Hin & Hl).
  destruct (Hvals title links link Hin Hl) as [(l0 & Hnil & _)|[Ht [Hw Hhead]]].
  { by apply elem_of_nil in Hnil. }
  split; [|split].
  - apply list_elem_of_fmap in Ht as ([t q] & -> & Hq). by exists m, q.
  - unfold PDFSearcher.rate_limiter_wait in Hw.
    destruct (netloc_of link); [by eexists|done].
  - unfold PDFSearcher.head_is_pdf in Hhead.
    destruct (http_head link) as [response|]; [|done].
    apply andb_true_iff in Hhead as [Hs Hc]. apply Z.eqb_eq in Hs.
    by exists response.
Qed.

Lemma written_links_are_verified_witness :
  (∃ m query,
      SearchApplication._get_queries
        (SearchApplication.mkArgs None false (Some ["Budget:dod budget"])) = inl m
      ∧ ("Budget", query) ∈ m)
  ∧ is_Some (Url.netloc_of Scenario.budget_pdf)
  ∧ ∃ response,
      Scenario.site_head Scenario.budget_pdf = PDFSearcher.HeadResponse response
      ∧ PDFSearcher.status_code response = 200%Z
      ∧ Str.contains "application/pdf"
          (PDFSearcher.headers_get (PDFSearcher.headers response)
             "Content-Type" "") = true.
Proof.
  pose (r := (SearchApplication.run Url.netloc_of Url.urljoin Scenario.site_head
                Scenario.site_get Scenario.site_search "20261103_103000"
                "Tue Nov  3 10:30:00 2026"
                (SearchApplication.mkArgs None false (Some ["Budget:dod budget"]))).2).
  apply (written_links_are_verified Url.netloc_of Url.urljoin Scenario.site_head
           Scenario.site_get Scenario.site_search "20261103_103000"
           "Tue Nov  3 10:30:00 2026"
           (SearchApplication.mkArgs None false (Some ["Budget:dod budget"]))
           (match r with SearchApplication.Finished f _ => f | _ => "" end)
           (match r with SearchApplication.Finished _ rows => rows | _ => [] end)
           "Budget" Scenario.budget_pdf).
  - vm_compute. reflexivity.
  - vm_compute. apply list_elem_of_here.
Defined.

Section Slots.
Import SearchApplication.
Variable netloc_of : string → option string.
Variable urljoin : string → string → option string.
Variable http_head : string → PDFSearcher.head_result.
Variable http_get : string → PDFSearcher.get_result.
Variable search : string → nat → option (list string).

Lemma dict_set_keeps {V} (k k' : string) (v v' : V) (d : list (string * V)) :
  (k, v) ∈ d → k ≠ k' → (k, v) ∈ Dict.set k' v' d.
Proof.
  intros Hin Hne. induction d as [|[k0 v0] d IH]; simpl.
  - by apply elem_of_nil in Hin.
  - destruct (String.eqb k0 k') eqn:He.
    + apply String.eqb_eq in He as ->.
      apply elem_of_cons in Hin as [[= <- <-]|Hin]; [done|by right].
    + apply elem_of_cons in Hin as [<-|Hin]; [by left|]. right. by apply IH.
Qed.

(** A slot is not touched by the queries of other titles. *)
Lemma search_all_keeps cfg queries : ∀ st acc title (links : gset string),
  (title, links) ∈ acc → title ∉ queries.*1 →
  (title, links)
  ∈ (search_all netloc_of urljoin http_head http_get search cfg queries st acc).2.
Proof.
  induction queries as [|[t q] queries IH]; intros st acc title links Hacc Hnot;
    simpl; [done|].
  destruct (PDFSearcher.find_pdf_links _ _ _ _ _ _ _ _) as [st1 links1].
  apply IH.
  - apply dict_set_keeps; [done|]. intros ->. apply Hnot. by left.
  - intros Hin. apply Hnot. by right.
Qed.

(** With distinct titles, the slot of a query holds what [find_pdf_links]
    returned for it on the searcher as it was at that point. *)
Lemma search_all_slots cfg queries : ∀ st acc title query,
  NoDup (acc.*1 ++ queries.*1) →
  (title, query) ∈ queries →
  ∃ st',
    (title,
     (PDFSearcher.find_pdf_links netloc_of urljoin http_head http_get search
        cfg query st').2)
    ∈ (search_all netloc_of urljoin http_head http_get search cfg queries st acc).2.
Proof.
  induction queries as [|[t q] queries IH]; intros st acc title query Hnd Hin.
  { by apply elem_of_nil in Hin. }
  rewrite fmap_cons in Hnd. cbn [fst] in Hnd.
  assert (Hfresh : t ∉ acc.*1).
  { apply NoDup_app in Hnd as (_ & Hdisj & _). intros Ht.
    apply (Hdisj t Ht). by left. }
  assert (Hnot : t ∉ queries.*1).
  { apply NoDup_app in Hnd as (_ & _ & Hq). by apply NoDup_cons in Hq as [? _]. }
  assert (Hnd' : ∀ links : gset string,
            NoDup ((Dict.set t links acc).*1 ++ queries.*1)).
  { intros links. rewrite dict_set_fresh by done.
    rewrite fmap_app. simpl. by rewrite <- app_assoc. }
  cbn [search_all].
  apply elem_of_cons in Hin as [[= -> ->]|Hin].
  - exists st.
    destruct (PDFSearcher.find_pdf_links netloc_of urljoin http_head http_get
                search cfg q st) as [st1 links1].
    apply search_all_keeps; [|done].
    rewrite dict_set_fresh by done. apply elem_of_app. right. by left.
  - destruct (PDFSearcher.find_pdf_links netloc_of urljoin http_head http_get
                search cfg q st) as [st1 links1].
    apply (IH st1 (Dict.set t links1 acc) title query (Hnd' links1) Hin).
Qed.
End Slots.

(** X10.  On the one searcher that all queries share, a query whose search
    results were all among those of an earlier query returns the empty set,
    whatever the earlier query found. *)
Theorem later_query_gets_nothing_for_shared_results
    (netloc_of : string → option string)
    (urljoin : string → string → option string)
    (http_head : string → PDFSearcher.head_result)
    (http_get : string → PDFSearcher.get_result)
    (search : string → nat → option (list string))
    (cfg : Config) (earlier later : string) (st : PDFSearcher.state) :
  (∀ u, u ∈ default [] (search later (search_results_limit cfg)) →
        u ∈ default [] (search earlier (search_results_limit cfg))) →
  let first := PDFSearcher.find_pdf_links netloc_of urljoin http_head http_get
                 search cfg earlier st in
  (PDFSearcher.find_pdf_links netloc_of urljoin http_head http_get search
     cfg later first.1).2 = ∅.
Proof.
  intros Hshared first. rewrite find_pdf_links_seen; [done|].
  intros u Hu. unfold first. rewrite find_pdf_links_cache.
  apply elem_of_union_l, elem_of_list_to_set. by apply Hshared.
Qed.

Lemma later_query_gets_nothing_for_shared_results_witness :
  let first := PDFSearcher.find_pdf_links Url.netloc_of Url.urljoin
                 Scenario.site_head Scenario.site_get Scenario.site_search
                 default_config "FY 2024" PDFSearcher.init in
  (PDFSearcher.find_pdf_links Url.netloc_of Url.urljoin Scenario.site_head
     Scenario.site_get Scenario.site_search default_config "FY 2025" first.1).2
  = ∅.
Proof.
  apply (later_query_gets_nothing_for_shared_results Url.netloc_of Url.urljoin
           Scenario.site_head Scenario.site_get Scenario.site_search
           default_config "FY 2024" "FY 2025" PDFSearcher.init).
  intros u Hu. exact Hu.
Defined.

(** X18.  A query whose search collaborator raises gets the empty set in
    its result slot; [_perform_searches] still returns. *)
Theorem failed_search_leaves_an_empty_slot
    (netloc_of : string → option string)
    (urljoin : string → string → option string)
    (http_head : string → PDFSearcher.head_result)
    (http_get : string → PDFSearcher.get_result)
    (search : string → nat → option (list string))
    (cfg : Config) (args : SearchApplication.Namespace)
    (st : PDFSearcher.state) (m : list (string * string))
    (title query : string) :
  SearchApplication._get_queries args = inl m →
  (title, query) ∈ m →
  search query (search_results_limit cfg) = None →
  ∃ search_results,
    (SearchApplication._perform_searches netloc_of urljoin http_head http_get
       search cfg args st).2 = inl search_results
    ∧ (title, ∅) ∈ search_results.
Proof.
  intros Hm Hin Hfail. unfold SearchApplication._perform_searches. rewrite Hm.
  destruct (get_queries_map args m Hm) as [Hnd _].
  destruct (search_all_slots netloc_of urljoin http_head http_get search cfg m
              st [] title query Hnd Hin) as [st' Hslot].
  destruct (SearchApplication.search_all _ _ _ _ _ _ _ _ _) as [st1 results].
  exists results. split; [done|]. simpl in Hslot.
  unfold PDFSearcher.find_pdf_links in Hslot. by rewrite Hfail in Hslot.
Qed.

Lemma failed_search_leaves_an_empty_slot_witness :
  ∃ search_results,
    (SearchApplication._perform_searches Url.netloc_of Url.urljoin
       Scenario.site_head Scenario.site_get
       (λ q _, if String.eqb q "dod budget" then None
               else Some [Scenario.budget_pdf])
       default_config
       (SearchApplication.mkArgs None false
          (Some ["Budget:dod budget"; "Vendors:dod vendors"]))
       PDFSearcher.init).2 = inl search_results
    ∧ ("Budget", ∅) ∈ search_results.
Proof.
  apply (failed_search_leaves_an_empty_slot Url.netloc_of Url.urljoin
           Scenario.site_head Scenario.site_get
           (λ q _, if String.eqb q "dod budget" then None
                   else Some [Scenario.budget_pdf])
           default_config
           (SearchApplication.mkArgs None false
              (Some ["Budget:dod budget"; "Vendors:dod vendors"]))
           PDFSearcher.init
           [("Budget", "dod budget"); ("Vendors", "dod vendors")]
           "Budget" "dod budget").
  - reflexivity.
  - by left.
  - reflexivity.
Defined.

(** ** What a run finds, whichever query claims a search result *)

Section RunYields.
Import SearchApplication.
Variable netloc_of : string → option string.
Variable urljoin : string → string → option string.
Variable http_head : string → PDFSearcher.head_result.
Variable http_get : string → PDFSearcher.get_result.
Variable search : string → nat → option (list string).

Local Abbreviation search_all' :=
  (search_all netloc_of urljoin http_head http_get search).

(** The queries of a run enter their search results into the cache, and
    nothing else. *)
Lemma search_all_cache cfg queries : ∀ st acc u,
  u ∈ PDFSearcher.cache (search_all' cfg queries st acc).1
  ↔ u ∈ PDFSearcher.cache st
    ∨ ∃ title query,
        (title, query) ∈ queries
        ∧ u ∈ default [] (search query (search_results_limit cfg)).
Proof.
  induction queries as [|[t q] queries IH]; intros st acc u; simpl.
  - split; [by left|]. intros [?|(t & q & Hin & _)]; [done|].
    by apply elem_of_nil in Hin.
  - pose proof (find_pdf_links_cache netloc_of urljoin http_head http_get search
                  cfg q st) as Hc.
    destruct (PDFSearcher.find_pdf_links _ _ _ _ _ _ _ _) as [st1 links1].
    simpl in Hc. rewrite IH, Hc, elem_of_union, elem_of_list_to_set. split.
    + intros [[Hu|Hu]|(t' & q' & Hin & Hu)].
      * right. exists t, q. split; [by left|done].
      * by left.
      * right. exists t', q'. split; [by right|done].
    + intros [Hu|(t' & q' & Hin & Hu)]; [left; by right|].
      apply elem_of_cons in Hin as [[= -> ->]|Hin]; [left; by left|].
      right. by exists t', q'.
Qed.

(** What a search result contributes ends up in some result slot: in the
    slot of the first query that has it among its search results. *)
Lemma search_all_yields cfg queries : ∀ st acc title query u v,
  NoDup (acc.*1 ++ queries.*1) →
  (title, query) ∈ queries →
  u ∈ default [] (search query (search_results_limit cfg)) →
  u ∉ PDFSearcher.cache st →
  PDFSearcher.yields netloc_of urljoin http_head http_get u v →
  ∃ title' links,
    (title', links) ∈ (search_all' cfg queries st acc).2 ∧ v ∈ links.
Proof.
  induction queries as [|[t q] queries IH];
    intros st acc title query u v Hnd Hin Hu Hfresh Hyields.
  { by apply elem_of_nil in Hin. }
  rewrite fmap_cons in Hnd. cbn [fst] in Hnd.
  assert (Hacc : t ∉ acc.*1).
  { apply NoDup_app in Hnd as (_ & Hdisj & _). intros Ht.
    apply (Hdisj t Ht). by left. }
  assert (Hnot : t ∉ queries.*1).
  { apply NoDup_app in Hnd as (_ & _ & Hq). by apply NoDup_cons in Hq as [? _]. }
  cbn [search_all].
  pose proof (find_pdf_links_links netloc_of urljoin http_head http_get search
                cfg q st v) as Hlinks.
  pose proof (find_pdf_links_cache netloc_of urljoin http_head http_get search
                cfg q st) as Hcache.
  destruct (PDFSearcher.find_pdf_links netloc_of urljoin http_head http_get
              search cfg q st) as [st1 links1].
  simpl in Hlinks, Hcache.
  destruct (decide (u ∈ default [] (search q (search_results_limit cfg))))
    as [Hhere|Hlater].
  - exists t, links1. split.
    + apply (search_all_keeps netloc_of urljoin http_head http_get search);
        [|done].
      rewrite dict_set_fresh by done. apply elem_of_app. right. by left.
    + apply Hlinks. by exists u.
  - apply elem_of_cons in Hin as [[= -> ->]|Hin]; [done|].
    apply (IH st1 (Dict.set t links1 acc) title query u v); try done.
    + rewrite dict_set_fresh by done.
      rewrite fmap_app. simpl. by rewrite <- app_assoc.
    + rewrite Hcache, elem_of_union, elem_of_list_to_set. tauto.
Qed.

(** On the fresh searcher of a run, what a search result of any query of
    the map contributes is in the result map, under some title. *)
Lemma perform_searches_yields (args : Namespace)
    (m : list (string * string)) (title query u v : string) :
  _get_queries args = inl m →
  (title, query) ∈ m →
  u ∈ default [] (search query (search_results_limit default_config)) →
  PDFSearcher.yields netloc_of urljoin http_head http_get u v →
  ∃ search_results title' links,
    (_perform_searches netloc_of urljoin http_head http_get search
       default_config args PDFSearcher.init).2 = inl search_results
    ∧ (title', links) ∈ search_results ∧ v ∈ links.
Proof.
  intros Hm Hin Hu Hyields. unfold _perform_searches. rewrite Hm.
  destruct (get_queries_map args m Hm) as [Hnd _].
  destruct (search_all_yields default_config m PDFSearcher.init [] title query
              u v Hnd Hin Hu) as (title' & links & Hslot & Hv);
    [apply not_elem_of_empty|done|].
  destruct (search_all _ _ _ _ _ _ _ _ _) as [st' results]. simpl in *.
  by exists results, title', links.
Qed.
End RunYields.

(** X6.  In a run, a search result of any query of the map that ends with
    [.pdf] and passes the probe is in the result map that [_perform_searches]
    returns, under the title of the query that claimed it. *)
Theorem verified_pdf_search_result_is_found
    (netloc_of : string → option string)
    (urljoin : string → string → option string)
    (http_head : string → PDFSearcher.head_result)
    (http_get : string → PDFSearcher.get_result)
    (search : string → nat → option (list string))
    (args : SearchApplication.Namespace)
    (m : list (string * string)) (title query : string)
    (seeds : list string) (u : string) :
  SearchApplication._get_queries args = inl m →
  (title, query) ∈ m →
  search query (search_results_limit default_config) = Some seeds →
  u ∈ seeds →
  Str.endswith u ".pdf" = true →
  PDFSearcher.verified netloc_of http_head u →
  ∃ search_results title' links,
    (SearchApplication._perform_searches netloc_of urljoin http_head http_get
       search default_config args PDFSearcher.init).2 = inl search_results
    ∧ (title', links) ∈ search_results ∧ u ∈ links.
Proof.
  intros Hm Hin Hsearch Hu Hpdf Hok.
  apply (perform_searches_yields netloc_of urljoin http_head http_get search
           args m title query u u Hm Hin).
  - by rewrite Hsearch.
  - split; [done|]. by left.
Qed.

Lemma verified_pdf_search_result_is_found_witness :
  ∃ search_results title' links,
    (SearchApplication._perform_searches Url.netloc_of Url.urljoin
       Scenario.site_head Scenario.site_get Scenario.site_search default_config
       (SearchApplication.mkArgs None false
          (Some ["Budget:dod budget"; "Vendors:dod vendors"]))
       PDFSearcher.init).2 = inl search_results
    ∧ (title', links) ∈ search_results ∧ Scenario.budget_pdf ∈ links.
Proof.
  apply (verified_pdf_search_result_is_found Url.netloc_of Url.urljoin
           Scenario.site_head Scenario.site_get Scenario.site_search
           (SearchApplication.mkArgs None false
              (Some ["Budget:dod budget"; "Vendors:dod vendors"]))
           [("Budget", "dod budget"); ("Vendors", "dod vendors")]
           "Vendors" "dod vendors"
           [Scenario.budget_pdf; Scenario.index_page] Scenario.budget_pdf).
  - reflexivity.
  - right. by left.
  - reflexivity.
  - by left.
  - reflexivity.
  - split; reflexivity.
Defined.

(** X7.  In a run, when a search result of any query of the map does not
    end with [.pdf], its page is fetched without error and every [.pdf]
    link on it resolves, then each such link that passes the probe is in the
    result map that [_perform_searches] returns, under the title of the
    query that claimed the page. *)
Theorem verified_link_of_scraped_page_is_found
    (netloc_of : string → option string)
    (urljoin : string → string → option string)
    (http_head : string → PDFSearcher.head_result)
    (http_get : string → PDFSearcher.get_result)
    (search : string → nat → option (list string))
    (args : SearchApplication.Namespace)
    (m : list (string * string)) (title query : string)
    (seeds hrefs : list string) (page href v : string) :
  SearchApplication._get_queries args = inl m →
  (title, query) ∈ m →
  search query (search_results_limit default_config) = Some seeds →
  page ∈ seeds →
  Str.endswith page ".pdf" = false →
  PDFSearcher.page_hrefs netloc_of http_get page = Some hrefs →
  (∀ h, h ∈ hrefs → Str.endswith h ".pdf" = true → is_Some (urljoin page h)) →
  href ∈ hrefs →
  Str.endswith href ".pdf" = true →
  urljoin page href = Some v →
  PDFSearcher.verified netloc_of http_head v →
  ∃ search_results title' links,
    (SearchApplication._perform_searches netloc_of urljoin http_head http_get
       search default_config args PDFSearcher.init).2 = inl search_results
    ∧ (title', links) ∈ search_results ∧ v ∈ links.
Proof.
  intros Hm Hin Hsearch Hpage Hnotpdf Hhrefs Hres Hhref Hpdf Hjoin Hok.
  apply (perform_searches_yields netloc_of urljoin http_head http_get search
           args m title query page v Hm Hin).
  - by rewrite Hsearch.
  - split; [done|]. right. split; [done|].
    destruct (pdf_urls_of_total urljoin page hrefs ∅ Hres) as [s Hs].
    exists hrefs, s. split; [done|]. split; [done|].
    apply (pdf_urls_of_elem urljoin page hrefs ∅ s Hs). right. by exists href.
Qed.

Lemma verified_link_of_scraped_page_is_found_witness :
  ∃ search_results title' links,
    (SearchApplication._perform_searches Url.netloc_of Url.urljoin
       Scenario.site_head Scenario.site_get (λ _ _, Some [Scenario.index_page])
       default_config
       (SearchApplication.mkArgs None false (Some ["Budget:dod budget"]))
       PDFSearcher.init).2 = inl search_results
    ∧ (title', links) ∈ search_results ∧ Scenario.budget_pdf ∈ links.
Proof.
  apply (verified_link_of_scraped_page_is_found Url.netloc_of Url.urljoin
           Scenario.site_head Scenario.site_get (λ _ _, Some [Scenario.index_page])
           (SearchApplication.mkArgs None false (Some ["Budget:dod budget"]))
           [("Budget", "dod budget")] "Budget" "dod budget"
           [Scenario.index_page] ["/reports/budget.pdf"]
           Scenario.index_page "/reports/budget.pdf" Scenario.budget_pdf).
  - reflexivity.
  - by left.
  - reflexivity.
  - by left.
  - reflexivity.
  - reflexivity.
  - intros h Hh _. apply elem_of_cons in Hh as [->|Hh]; [vm_compute; eauto|].
    by apply elem_of_nil in Hh.
  - by left.
  - reflexivity.
  - reflexivity.
  - split; reflexivity.
Defined.

(** X8.  After the searches of a run, the visited cache of the searcher
    holds exactly the search results of the queries of the map: links taken
    from pages are never entered. *)
Theorem cache_holds_exactly_the_search_results
    (netloc_of : string → option string)
    (urljoin : string → string → option string)
    (http_head : string → PDFSearcher.head_result)
    (http_get : string → PDFSearcher.get_result)
    (search : string → nat → option (list string))
    (args : SearchApplication.Namespace) (m : list (string * string))
    (u : string) :
  SearchApplication._get_queries args = inl m →
  u ∈ PDFSearcher.cache
        (SearchApplication._perform_searches netloc_of urljoin http_head http_get
           search default_config args PDFSearcher.init).1
  ↔ ∃ title query,
      (title, query) ∈ m
      ∧ u ∈ default [] (search query (search_results_limit default_config)).
Proof.
  intros Hm. unfold SearchApplication._perform_searches. rewrite Hm.
  pose proof (search_all_cache netloc_of urljoin http_head http_get search
                default_config m PDFSearcher.init [] u) as Hc.
  destruct (SearchApplication.search_all _ _ _ _ _ _ _ _ _) as [st' results].
  simpl in *. rewrite Hc. split; [|by right].
  intros [Hu|?]; [|done]. by apply not_elem_of_empty in Hu.
Qed.

Lemma cache_holds_exactly_the_search_results_witness :
  Scenario.index_page
  ∈ PDFSearcher.cache
      (SearchApplication._perform_searches Url.netloc_of Url.urljoin
         Scenario.site_head Scenario.site_get
         (λ _ _, Some [Scenario.index_page]) default_config
         (SearchApplication.mkArgs None false (Some ["Budget:dod budget"]))
         PDFSearcher.init).1
  ↔ ∃ title query,
      (title, query) ∈ [("Budget", "dod budget")]
      ∧ Scenario.index_page
        ∈ default [] ((λ _ _, Some [Scenario.index_page]) query
                        (search_results_limit default_config)).
Proof.
  apply (cache_holds_exactly_the_search_results Url.netloc_of Url.urljoin
           Scenario.site_head Scenario.site_get
           (λ _ _, Some [Scenario.index_page])
           (SearchApplication.mkArgs None false (Some ["Budget:dod budget"]))
           [("Budget", "dod budget")] Scenario.index_page).
  reflexivity.
Defined.
